(** * The quote engine of the Insurance Sales Agent API (src/main.py)

    A shallow embedding of [get_quote] and of the fragment of the Python
    runtime it runs on: arbitrary-precision integers, binary64 floats,
    exceptions, insertion-ordered dictionaries and the built-ins [min],
    [str], [abs], [sorted] and slicing. *)

From Stdlib Require Import ZArith List String Ascii Bool Lia.
From Stdlib Require Import Permutation Sorted DecimalString SpecFloat.
Import ListNotations.

Local Open Scope string_scope.
Local Open Scope list_scope.
Local Open Scope Z_scope.

(** ** The Python fragment *)

Module Py.

(** The exception classes the handler of [get_quote] tells apart. Only
    [ValueError] and [TypeError] are named by its [except] clause. *)
Inductive exn : Set :=
| ValueError
| TypeError
| IndexError
| ZeroDivisionError
| OverflowError.

Inductive result (A : Type) : Type :=
| Ok (a : A)
| Raise (e : exn).
Arguments Ok {A} a.
Arguments Raise {A} e.

Definition bind {A B} (m : result A) (k : A -> result B) : result B :=
  match m with
  | Ok a => k a
  | Raise e => Raise e
  end.

(** Scalar objects that [json.load] produces, and that arithmetic
    produces from them. A float is a binary64 in the representation of
    [SpecFloat]. *)
Inductive value : Type :=
| PyNone
| PyBool (b : bool)
| PyInt (z : Z)
| PyFloat (f : spec_float)
| PyStr (s : string).

Definition prec : Z := 53.
Definition emax : Z := 1024.

(** [float('inf')] *)
Definition inf : spec_float := S754_infinity false.

(** The literals [0.2] and [0.5]: the binary64 nearest to each. *)
Definition lit_0_2 : spec_float := S754_finite false 7205759403792794 (-55).
Definition lit_0_5 : spec_float := S754_finite false 4503599627370496 (-53).

(** Conversion of an [int] operand to [float] (round to nearest, ties
    to even); a magnitude beyond the binary64 range raises. *)
Definition float_of_int (z : Z) : result spec_float :=
  match binary_normalize prec emax z 0 false with
  | S754_infinity _ => Raise OverflowError
  | f => Ok f
  end.

Definition is_zero (f : spec_float) : bool :=
  match f with
  | S754_zero _ => true
  | _ => false
  end.

Definition is_nan (f : spec_float) : bool :=
  match f with
  | S754_nan => true
  | _ => false
  end.

(** [int / int]: the correctly rounded quotient of the two integers. *)
Definition int_truediv (a b : Z) : result spec_float :=
  if b =? 0 then Raise ZeroDivisionError
  else if a =? 0 then Ok (S754_zero (b <? 0))
  else
    match SFdiv prec emax
            (S754_finite (a <? 0) (Z.to_pos (Z.abs a)) 0)
            (S754_finite (b <? 0) (Z.to_pos (Z.abs b)) 0) with
    | S754_infinity _ => Raise OverflowError
    | q => Ok q
    end.

(** [float / float]: the divisor is tested against zero first. *)
Definition float_truediv (x y : spec_float) : result spec_float :=
  if is_zero y then Raise ZeroDivisionError
  else Ok (SFdiv prec emax x y).

(** The numeric view of an object: [bool] is a subclass of [int]. *)
Inductive number : Type :=
| NInt (z : Z)
| NFloat (f : spec_float).

Definition as_number (v : value) : option number :=
  match v with
  | PyBool b => Some (NInt (if b then 1 else 0))
  | PyInt z => Some (NInt z)
  | PyFloat f => Some (NFloat f)
  | PyNone | PyStr _ => None
  end.

Notation "x <- m ;; k" := (bind m (fun x => k))
  (at level 61, m at next level, right associativity).

(** [a - b] where [b] is a number; a non-numeric [a] has no [__sub__]
    with a number. *)
Definition sub (a b : value) : result value :=
  match as_number a, as_number b with
  | Some (NInt x), Some (NInt y) => Ok (PyInt (x - y))
  | Some (NInt x), Some (NFloat g) =>
      f <- float_of_int x ;; Ok (PyFloat (SFsub prec emax f g))
  | Some (NFloat f), Some (NInt y) =>
      g <- float_of_int y ;; Ok (PyFloat (SFsub prec emax f g))
  | Some (NFloat f), Some (NFloat g) => Ok (PyFloat (SFsub prec emax f g))
  | _, _ => Raise TypeError
  end.

Definition abs (v : value) : result value :=
  match as_number v with
  | Some (NInt x) => Ok (PyInt (Z.abs x))
  | Some (NFloat f) => Ok (PyFloat (SFabs f))
  | None => Raise TypeError
  end.

(** [a / b]: true division always yields a float. *)
Definition truediv (a b : value) : result spec_float :=
  match as_number a, as_number b with
  | Some (NInt x), Some (NInt y) => int_truediv x y
  | Some (NInt x), Some (NFloat g) =>
      f <- float_of_int x ;; float_truediv f g
  | Some (NFloat f), Some (NInt y) =>
      g <- float_of_int y ;; float_truediv f g
  | Some (NFloat f), Some (NFloat g) => float_truediv f g
  | _, _ => Raise TypeError
  end.

(** [x < y] on floats; any comparison with NaN is false. *)
Definition float_lt (x y : spec_float) : bool := SFltb x y.

(** [str(n)] for an [int]. *)
Definition str_of_int (z : Z) : string :=
  NilZero.string_of_int (Z.to_int z).

(** [min(xs)]; an empty argument raises [ValueError]. *)
Definition min (xs : list Z) : result Z :=
  match xs with
  | [] => Raise ValueError
  | x :: xs' => Ok (fold_left Z.min xs' x)
  end.

(** [needle in hay] on strings. *)
Fixpoint contains (needle hay : string) : bool :=
  if String.prefix needle hay then true
  else
    match hay with
    | EmptyString => false
    | String _ hay' => contains needle hay'
    end.

(** A [dict] with string keys, in insertion order. *)
Definition dict (V : Type) : Type := list (string * V).

(** [d.get(k, default)] *)
Fixpoint get {V} (d : dict V) (k : string) (default : V) : V :=
  match d with
  | [] => default
  | (k', v) :: d' => if String.eqb k' k then v else get d' k default
  end.

(** [list(d.values())] *)
Definition values {V} (d : dict V) : list V := List.map snd d.

(** [xs[0]] *)
Definition index0 {V} (xs : list V) : result V :=
  match xs with
  | [] => Raise IndexError
  | x :: _ => Ok x
  end.

(** [x in xs] for a list of strings. *)
Definition str_in (x : string) (xs : list string) : bool :=
  existsb (String.eqb x) xs.

End Py.

Import Py.

(** ** Data model (the Pydantic models of main.py) *)

(** A policy record of [policies_data], with the fields of class [Policy].
    Coverage tiers are integers; a premium is whatever scalar the
    catalogue file holds under its key. *)
Record Policy : Type := {
  policy_id : string;
  name : string;
  type : string;
  description : string;
  sum_insured : list Z;
  premium_yearly : dict value;
  eligibility : dict Z;
  exclusions : list string;
  riders : list string
}.

(** Class [UserProfile]: the validated body of [POST /quote]. *)
Record UserProfile : Type := {
  age : Z;
  dependents_count : Z;
  annual_income_band : Z;
  risk_tolerance : string;
  preferred_premium_band : Z;
  vehicle_type : option string;
  health_flags : option (list string)
}.

(** An entry [{"policy": policy, "score": score}] of [scored_policies]. *)
Record Scored : Type := {
  policy : Policy;
  score : Z
}.

(** ** [get_quote] *)

(** Step 1, lines 115-117: the two bounds and the test of the first loop,
    [min_age <= profile.age <= max_age]. *)
Definition min_age (p : Policy) : Z := get (eligibility p) "min_age" 0.
Definition max_age (p : Policy) : Z := get (eligibility p) "max_age" 100.

Definition eligible (profile : UserProfile) (p : Policy) : bool :=
  (min_age p <=? age profile) && (age profile <=? max_age p).

Definition eligible_policies (policies_data : list Policy)
    (profile : UserProfile) : list Policy :=
  filter (eligible profile) policies_data.

(** [not policy["sum_insured"] or policy["sum_insured"] == [0]] *)
Definition no_sum_insured (xs : list Z) : bool :=
  match xs with
  | [] => true
  | [x] => x =? 0
  | _ => false
  end.

(** Lines 127-133: the premium taken as the reference for a policy. *)
Definition reference_premium (p : Policy) : result value :=
  if no_sum_insured (sum_insured p) then
    index0 (values (premium_yearly p))
  else
    m <- min (sum_insured p) ;;
    let lowest_sum_insured := str_of_int m in
    Ok (get (premium_yearly p) lowest_sum_insured (PyFloat inf)).

(** Line 136:
    [abs(reference_premium - preferred_premium_band) / preferred_premium_band] *)
Definition premium_diff_percent (reference : value) (band : Z)
    : result spec_float :=
  d <- sub reference (PyInt band) ;;
  a <- abs d ;;
  truediv a (PyInt band).

(** Lines 137-140 *)
Definition premium_bonus (diff : spec_float) : Z :=
  if float_lt diff lit_0_2 then 3
  else if float_lt diff lit_0_5 then 1
  else 0.

(** Lines 143-144 *)
Definition low_risk_bonus (profile : UserProfile) (p : Policy) : Z :=
  if String.eqb (risk_tolerance profile) "Low"
     && str_in (type p) ["life"; "health"]
  then 2 else 0.

(** Lines 145-146 *)
Definition high_risk_bonus (profile : UserProfile) (p : Policy) : Z :=
  if String.eqb (risk_tolerance profile) "High"
     && contains "ULIP" (name p)
  then 3 else 0.

(** The body of the [try] block, lines 126-148, up to the score that is
    appended. *)
Definition score_policy (profile : UserProfile) (p : Policy) : result Z :=
  let score := 0 in
  reference <- reference_premium p ;;
  diff <- premium_diff_percent reference (preferred_premium_band profile) ;;
  let score := score + premium_bonus diff in
  let score := score + low_risk_bonus profile p in
  let score := score + high_risk_bonus profile p in
  Ok score.

(** [except (ValueError, TypeError)] *)
Definition handled (e : exn) : bool :=
  match e with
  | ValueError | TypeError => true
  | _ => false
  end.

(** Step 2, the second loop: [scored] is [scored_policies] so far. *)
Fixpoint score_loop (profile : UserProfile) (todo : list Policy)
    (scored : list Scored) : result (list Scored) :=
  match todo with
  | [] => Ok scored
  | p :: todo' =>
      match score_policy profile p with
      | Ok s =>
          score_loop profile todo' (scored ++ [{| policy := p; score := s |}])
      | Raise e =>
          if handled e then score_loop profile todo' scored
          else Raise e
      end
  end.

(** [sorted(xs, key=lambda x: x["score"], reverse=True)]: a stable sort,
    here by insertion from the right. An entry goes in front of the first
    entry whose score is not greater than its own. *)
Fixpoint insert_desc (x : Scored) (xs : list Scored) : list Scored :=
  match xs with
  | [] => [x]
  | y :: xs' =>
      if score y <=? score x then x :: y :: xs'
      else y :: insert_desc x xs'
  end.

Definition sorted_by_score_desc (xs : list Scored) : list Scored :=
  fold_right insert_desc [] xs.

(** The body of the response, [{"recommendations": top_3_policies}]. *)
Record QuoteResponse : Type := {
  recommendations : list Policy
}.

Definition get_quote (policies_data : list Policy) (profile : UserProfile)
    : result QuoteResponse :=
  let eligible_policies := eligible_policies policies_data profile in
  scored_policies <- score_loop profile eligible_policies [] ;;
  let sorted_policies := sorted_by_score_desc scored_policies in
  let top_3_policies := map policy (firstn 3 sorted_policies) in
  Ok {| recommendations := top_3_policies |}.

(** ** The HTTP surface as a transition system over the process state *)

Module App.

(** The module-level state: the catalogue loaded at start-up. *)
Record state : Type := {
  policies_data : list Policy
}.

Inductive request : Type :=
| GetRoot
| GetHealth
| GetPolicies
| PostQuote (profile : UserProfile)
| PostHandoff.

Inductive response : Type :=
| RootStatus (policies_loaded : nat)
| Health (policies_count : nat)
| Policies (ps : list Policy)
| Quote (r : QuoteResponse)
| Handoff
| ServerError (e : exn).

(** One request: the response and the state it leaves behind. *)
Definition handle (st : state) (rq : request) : response * state :=
  match rq with
  | GetRoot => (RootStatus (List.length (policies_data st)), st)
  | GetHealth => (Health (List.length (policies_data st)), st)
  | GetPolicies => (Policies (policies_data st), st)
  | PostQuote profile =>
      match get_quote (policies_data st) profile with
      | Ok r => (Quote r, st)
      | Raise e => (ServerError e, st)
      end
  | PostHandoff => (Handoff, st)
  end.

Fixpoint run (st : state) (rqs : list request) : list response * state :=
  match rqs with
  | [] => ([], st)
  | rq :: rqs' =>
      let (r, st') := handle st rq in
      let (rs, st'') := run st' rqs' in
      (r :: rs, st'')
  end.

End App.

(** ** Scenarios of the specification *)

Definition mk_profile (a : Z) (risk : string) (band : Z) : UserProfile :=
  {| age := a; dependents_count := 0; annual_income_band := 0;
     risk_tolerance := risk; preferred_premium_band := band;
     vehicle_type := None; health_flags := None |}.

Definition mk_policy (id nm ty : string) (si : list Z) (pr : dict value)
    (el : dict Z) : Policy :=
  {| policy_id := id; name := nm; type := ty; description := "";
     sum_insured := si; premium_yearly := pr; eligibility := el;
     exclusions := []; riders := [] |}.

(** Scenario A *)
Definition P1 : Policy :=
  mk_policy "P1" "P1" "health" [500000] [("500000", PyInt 5000)]
    [("min_age", 18); ("max_age", 65)].
Definition profile_A : UserProfile := mk_profile 30 "Low" 5000.

(** Scenario C *)
Definition P_flat : Policy :=
  mk_policy "M1" "Motor" "motor" [0] [("flat", PyInt 12000)] [].

(** A policy with no premium at all, and one whose premium is a string. *)
Definition P_nopremium : Policy :=
  mk_policy "E1" "Empty" "motor" [] [] [].
Definition P_strpremium : Policy :=
  mk_policy "S1" "Str" "health" [0] [("flat", PyStr "12000")] [].

(** ** Facts about the Python fragment *)

Section DictFacts.
Context {V : Type}.

(** [binds d k v]: [d[k]] is [v], the first binding of [k]. *)
Definition binds (d : dict V) (k : string) (v : V) : Prop :=
  exists d1 d2, d = (d1 ++ (k, v) :: d2)%list /\ ~ In k (map fst d1).

(** [absent d k]: [k not in d]. *)
Definition absent (d : dict V) (k : string) : Prop :=
  ~ In k (map fst d).

Lemma get_absent (d : dict V) (k : string) (default : V) :
  absent d k -> get d k default = default.
Proof.
  unfold absent. induction d as [|[k' v'] d IH]; simpl; intros Hk.
  - reflexivity.
  - destruct (String.eqb_spec k' k) as [->|Hne].
    + exfalso. apply Hk. now left.
    + apply IH. intros Hin. apply Hk. now right.
Qed.

Lemma get_binds (d : dict V) (k : string) (v default : V) :
  binds d k v -> get d k default = v.
Proof.
  intros (d1 & d2 & -> & Hk).
  induction d1 as [|[k' v'] d1 IH]; simpl in *.
  - now rewrite String.eqb_refl.
  - destruct (String.eqb_spec k' k) as [->|Hne].
    + exfalso. apply Hk. now left.
    + apply IH. intros Hin. apply Hk. now right.
Qed.

Lemma binds_or_absent (d : dict V) (k : string) :
  (exists v, binds d k v) \/ absent d k.
Proof.
  induction d as [|[k' v'] d IH].
  - right. intros [].
  - destruct (String.eqb_spec k' k) as [->|Hne].
    + left. exists v', [], d. split; [reflexivity | intros []].
    + destruct IH as [(v & d1 & d2 & -> & Hk)|Hab].
      * left. exists v, ((k', v') :: d1), d2. split; [reflexivity|].
        simpl. intros [H|H]; [now apply Hne | now apply Hk].
      * right. simpl. intros [H|H]; [now apply Hne | now apply Hab].
Qed.

End DictFacts.









(** ** Signs of rounded results *)

(** [has_sign s f]: [f] is a zero, a finite number or an infinity of
    sign bit [s]; in particular, [f] is not NaN. *)
Definition has_sign (s : bool) (f : spec_float) : Prop :=
  match f with
  | S754_zero s' | S754_infinity s' | S754_finite s' _ _ => s' = s
  | S754_nan => False
  end.

Section Rounding.
Variables prec emax : Z.

Lemma shr_1_nonneg (mrs : shr_record) :
  0 <= shr_m mrs -> 0 <= shr_m (shr_1 mrs).
Proof.
  destruct mrs as [m r s]. simpl.
  destruct m as [|[p|p|]|p]; simpl; lia.
Qed.

Lemma iter_pos_invariant {A} (P : A -> Prop) (f : A -> A) :
  (forall x, P x -> P (f x)) ->
  forall n x, P x -> P (iter_pos f n x).
Proof.
  intros Hf. induction n as [n IH|n IH|]; simpl; intros x Hx; auto.
Qed.

Lemma shr_nonneg (mrs : shr_record) (e n : Z) :
  0 <= shr_m mrs -> 0 <= shr_m (fst (shr mrs e n)).
Proof.
  intros H. destruct n as [|p|p]; simpl; trivial.
  now apply (iter_pos_invariant (fun r => 0 <= shr_m r)), H; apply shr_1_nonneg.
Qed.

Lemma shr_fexp_nonneg (m e : Z) (l : location) :
  0 <= m -> 0 <= shr_m (fst (shr_fexp prec emax m e l)).
Proof.
  intros H. unfold shr_fexp. apply shr_nonneg.
  destruct l as [|[]]; exact H.
Qed.

Lemma round_nearest_even_nonneg (m : Z) (l : location) :
  0 <= m -> 0 <= round_nearest_even m l.
Proof.
  intros H. destruct l as [|[]]; simpl; try lia.
  destruct (Z.even m); lia.
Qed.

(** Rounding a non-negative mantissa never yields NaN and keeps the
    sign it is given. *)
Lemma binary_round_aux_sign (sx : bool) (mx ex : Z) (lx : location) :
  0 <= mx -> has_sign sx (binary_round_aux prec emax sx mx ex lx).
Proof.
  intros H. unfold binary_round_aux.
  pose proof (shr_fexp_nonneg mx ex lx H) as H1.
  destruct (shr_fexp prec emax mx ex lx) as [mrs' e']. simpl in H1.
  pose proof (shr_fexp_nonneg _ e' loc_Exact
                (round_nearest_even_nonneg _ (loc_of_shr_record mrs') H1)) as H2.
  destruct (shr_fexp prec emax _ e' loc_Exact) as [mrs'' e'']. simpl in H2.
  destruct (shr_m mrs'') as [|m|m]; simpl; trivial.
  - destruct (e'' <=? emax - prec); reflexivity.
  - lia.
Qed.

Lemma binary_round_sign (sx : bool) (mx : positive) (ex : Z) :
  has_sign sx (binary_round prec emax sx mx ex).
Proof.
  unfold binary_round. destruct (shl_align _ _ _) as [mz ez].
  apply binary_round_aux_sign. lia.
Qed.

Lemma binary_normalize_sign (m e : Z) (szero : bool) :
  m <> 0 -> has_sign (m <? 0) (binary_normalize prec emax m e szero).
Proof.
  destruct m as [|p|p]; simpl; intros H.
  - congruence.
  - apply binary_round_sign.
  - apply binary_round_sign.
Qed.

Lemma binary_normalize_not_nan (m e : Z) (szero : bool) :
  binary_normalize prec emax m e szero <> S754_nan.
Proof.
  destruct m as [|p|p]; simpl; intros E.
  - discriminate E.
  - pose proof (binary_round_sign false p e) as H. now rewrite E in H.
  - pose proof (binary_round_sign true p e) as H. now rewrite E in H.
Qed.

End Rounding.

Lemma SFdiv_finite_sign (sx sy : bool) (mx my : positive) (ex ey : Z) :
  has_sign (xorb sx sy)
    (SFdiv prec emax (S754_finite sx mx ex) (S754_finite sy my ey)).
Proof.
  unfold SFdiv, SFdiv_core_binary.
  set (s := ex - ey - _).
  set (m' := match s with Z0 => Z.pos mx | Z.pos _ => Z.shiftl (Z.pos mx) s
                     | Z.neg _ => 0 end).
  assert (Hm' : 0 <= m').
  { subst m'. destruct s; try lia. apply Z.shiftl_nonneg. lia. }
  assert (Hq : 0 <= fst (Z.div_eucl m' (Z.pos my))).
  { change (fst (Z.div_eucl m' (Z.pos my))) with (m' / Z.pos my).
    apply Z.div_pos; lia. }
  destruct (Z.div_eucl m' (Z.pos my)) as [q r]. simpl in Hq.
  now apply binary_round_aux_sign.
Qed.

(** A converted non-zero integer keeps its sign and is finite. *)
Lemma float_of_int_sign (z : Z) (g : spec_float) :
  float_of_int z = Ok g -> z <> 0 ->
  g = S754_zero (z <? 0) \/ exists m e, g = S754_finite (z <? 0) m e.
Proof.
  unfold float_of_int. intros H Hz.
  pose proof (binary_normalize_sign prec emax z 0 false Hz) as Hs.
  destruct (binary_normalize prec emax z 0 false) as [s|s| |s m e];
    simpl in Hs; try discriminate H; try contradiction;
    injection H as <-; subst s; eauto.
Qed.

Lemma float_of_int_zero : float_of_int 0 = Ok (S754_zero false).
Proof. reflexivity. Qed.

Lemma SFsub_not_nan (x y : spec_float) :
  x <> S754_nan ->
  (exists s, y = S754_zero s) \/ (exists s m e, y = S754_finite s m e) ->
  SFsub prec emax x y <> S754_nan.
Proof.
  intros Hx [[s ->]|(s & m & e & ->)];
    destruct x as [sx|sx| |sx mx ex]; simpl; try congruence.
  - destruct sx, s; discriminate.
  - apply binary_normalize_not_nan.
Qed.

Lemma has_sign_true_lt (f : spec_float) :
  has_sign true f ->
  float_lt f lit_0_2 = true /\
  (SFcompare f (S754_zero false) = Some Lt \/
   SFcompare f (S754_zero false) = Some Eq).
Proof.
  destruct f as [s|s| |s m e]; simpl; intros H; try contradiction; subst s;
    split; try reflexivity; auto.
Qed.

(** The numeric objects other than NaN. *)
Definition numeric (v : value) : Prop :=
  match as_number v with
  | Some (NInt _) => True
  | Some (NFloat f) => f <> S754_nan
  | None => False
  end.

(** With a negative divisor the quotient of line 136 has its sign bit
    set, whatever the premium. *)
Lemma negative_band_diff (reference : value) (band : Z) (diff : spec_float) :
  band < 0 -> numeric reference ->
  premium_diff_percent reference band = Ok diff ->
  has_sign true diff.
Proof.
  intros Hb Hnum H. unfold premium_diff_percent, sub, abs, truediv in H.
  unfold numeric in Hnum.
  assert (Hlt : (band <? 0) = true) by now apply Z.ltb_lt.
  destruct (as_number reference) as [[x|f]|]; [| |contradiction].
  - simpl in H. unfold int_truediv in H.
    destruct (Z.eqb_spec band 0) as [|_]; [lia|].
    destruct (Z.eqb_spec (Z.abs (x - band)) 0) as [_|Hne].
    + injection H as <-. simpl. exact Hlt.
    + pose proof (SFdiv_finite_sign (Z.abs (x - band) <? 0) (band <? 0)
                    (Z.to_pos (Z.abs (x - band))) (Z.to_pos (Z.abs band)) 0 0)
        as Hs.
      assert (Hge : (Z.abs (x - band) <? 0) = false)
        by (apply Z.ltb_ge; lia).
      rewrite Hge, Hlt in Hs, H. change (xorb false true) with true in Hs.
      rewrite Z.abs_idemp in H.
      revert Hs H.
      destruct (SFdiv prec emax _ _) as [s|s| |s m e]; intros Hs H;
        try discriminate H; try contradiction;
        cbv iota beta in H; injection H as <-; exact Hs.
  - simpl in H. destruct (float_of_int band) as [g|e] eqn:Eg;
      simpl in H; [|discriminate H].
    unfold float_truediv in H.
    destruct (float_of_int_sign _ _ Eg) as [->|(m & e & ->)]; [lia| |].
    + discriminate H.
    + simpl in H. injection H as <-. rewrite Hlt.
      pose proof (SFsub_not_nan f (S754_finite true m e) Hnum) as Hd.
      destruct (SFsub prec emax f (S754_finite true m e)) as [s|s| |s m' e'].
      * reflexivity.
      * reflexivity.
      * exfalso. apply Hd; [right; eauto | reflexivity].
      * apply (SFdiv_finite_sign false true).
Qed.


(** ** The scoring loop *)

(** What one iteration appends to [scored_policies]. *)
Definition scored_entry (profile : UserProfile) (p : Policy) : list Scored :=
  match score_policy profile p with
  | Ok s => [{| policy := p; score := s |}]
  | Raise _ => []
  end.

(** The iteration on [p] does not abort the request. *)
Definition passes (profile : UserProfile) (p : Policy) : Prop :=
  forall e, score_policy profile p = Raise e -> handled e = true.

Definition scorable (profile : UserProfile) (p : Policy) : bool :=
  match score_policy profile p with
  | Ok _ => true
  | Raise _ => false
  end.

Lemma score_loop_passes (profile : UserProfile) (todo : list Policy) :
  Forall (passes profile) todo ->
  forall scored,
    score_loop profile todo scored =
    Ok (scored ++ flat_map (scored_entry profile) todo).
Proof.
  induction 1 as [|p todo Hp _ IH]; intros scored; simpl.
  - now rewrite app_nil_r.
  - unfold scored_entry at 1. destruct (score_policy profile p) as [s|e] eqn:E.
    + rewrite IH, <- app_assoc. reflexivity.
    + rewrite (Hp e E). apply IH.
Qed.

Lemma score_loop_raises (profile : UserProfile) (pre post : list Policy)
    (p : Policy) (e : exn) :
  Forall (passes profile) pre ->
  score_policy profile p = Raise e -> handled e = false ->
  forall scored, score_loop profile (pre ++ p :: post) scored = Raise e.
Proof.
  intros Hpre Hp He. induction Hpre as [|q pre Hq _ IH]; intros scored; simpl.
  - now rewrite Hp, He.
  - destruct (score_policy profile q) as [s|e'] eqn:E.
    + apply IH.
    + rewrite (Hq e' E). apply IH.
Qed.

Lemma score_loop_ok (profile : UserProfile) (todo : list Policy)
    (scored out : list Scored) :
  score_loop profile todo scored = Ok out ->
  Forall (passes profile) todo /\
  out = (scored ++ flat_map (scored_entry profile) todo)%list.
Proof.
  revert scored. induction todo as [|p todo IH]; intros scored; simpl.
  - intros [= <-]. split; [constructor | now rewrite app_nil_r].
  - unfold scored_entry at 1, passes at 1.
    destruct (score_policy profile p) as [s|e] eqn:E.
    + intros H. destruct (IH _ H) as [Hall ->]. split.
      * constructor; [|exact Hall]. unfold passes. rewrite E. discriminate.
      * now rewrite <- app_assoc.
    + destruct (handled e) eqn:He; [|discriminate].
      intros H. destruct (IH _ H) as [Hall ->]. split; [|reflexivity].
      constructor; [|exact Hall]. unfold passes. rewrite E.
      now intros e' [= <-].
Qed.

(** The policies that get scored, in the order of the loop. *)
Lemma scored_policies_filter (profile : UserProfile) (todo : list Policy) :
  map policy (flat_map (scored_entry profile) todo) =
  filter (scorable profile) todo.
Proof.
  induction todo as [|p todo IH]; simpl; [reflexivity|].
  rewrite map_app, IH. unfold scored_entry, scorable.
  destruct (score_policy profile p); reflexivity.
Qed.

Lemma scored_entry_score (profile : UserProfile) (todo : list Policy)
    (x : Scored) :
  In x (flat_map (scored_entry profile) todo) ->
  In (policy x) todo /\ score_policy profile (policy x) = Ok (score x).
Proof.
  rewrite in_flat_map. intros (p & Hp & Hx). unfold scored_entry in Hx.
  destruct (score_policy profile p) as [s|e] eqn:E; [|destruct Hx].
  destruct Hx as [<-|[]]. simpl. auto.
Qed.

Lemma get_quote_ok (policies_data : list Policy) (profile : UserProfile)
    (r : QuoteResponse) :
  get_quote policies_data profile = Ok r ->
  exists scored,
    score_loop profile (eligible_policies policies_data profile) [] = Ok scored
    /\ recommendations r = map policy (firstn 3 (sorted_by_score_desc scored)).
Proof.
  unfold get_quote.
  destruct (score_loop profile _ []) as [scored|e]; simpl; [|discriminate].
  intros [= <-]. now exists scored.
Qed.

(** ** The sort *)

Lemma insert_desc_perm (x : Scored) (xs : list Scored) :
  Permutation (x :: xs) (insert_desc x xs).
Proof.
  induction xs as [|y xs IH]; simpl; [reflexivity|].
  destruct (score y <=? score x); [reflexivity|].
  rewrite perm_swap. now constructor.
Qed.

Lemma sorted_perm (xs : list Scored) :
  Permutation xs (sorted_by_score_desc xs).
Proof.
  induction xs as [|x xs IH]; simpl; [constructor|].
  rewrite <- insert_desc_perm. now constructor.
Qed.

Definition score_ge (a b : Scored) : Prop := score b <= score a.

Lemma insert_desc_HdRel (a x : Scored) (xs : list Scored) :
  score_ge a x -> HdRel score_ge a xs -> HdRel score_ge a (insert_desc x xs).
Proof.
  intros Hax H. destruct xs as [|y xs]; simpl.
  - now constructor.
  - destruct (score y <=? score x); constructor; trivial.
    now inversion H.
Qed.

Lemma insert_desc_sorted (x : Scored) (xs : list Scored) :
  Sorted score_ge xs -> Sorted score_ge (insert_desc x xs).
Proof.
  induction 1 as [|y xs Hs IH Hd]; simpl.
  - repeat constructor.
  - destruct (Z.leb_spec (score y) (score x)).
    + constructor; [now constructor | now constructor].
    + constructor; [exact IH|].
      apply insert_desc_HdRel; [unfold score_ge; lia | exact Hd].
Qed.

Lemma sorted_desc (xs : list Scored) :
  StronglySorted score_ge (sorted_by_score_desc xs).
Proof.
  apply Sorted_StronglySorted.
  - intros a b c. unfold score_ge. lia.
  - induction xs as [|x xs IH]; simpl; [constructor|].
    now apply insert_desc_sorted.
Qed.

Definition has_score (s : Z) (x : Scored) : bool := score x =? s.

Lemma insert_desc_filter (s : Z) (x : Scored) (xs : list Scored) :
  filter (has_score s) (insert_desc x xs) =
  filter (has_score s) (x :: xs).
Proof.
  induction xs as [|y xs IH]; [reflexivity|].
  simpl insert_desc. destruct (Z.leb_spec (score y) (score x)) as [Hle|Hlt].
  - reflexivity.
  - simpl in *. rewrite IH. unfold has_score.
    destruct (Z.eqb_spec (score x) s), (Z.eqb_spec (score y) s);
      try reflexivity. lia.
Qed.

(** Stability: the entries of any one score come out in the order they
    went in. *)
Lemma sorted_stable (s : Z) (xs : list Scored) :
  filter (has_score s) (sorted_by_score_desc xs) = filter (has_score s) xs.
Proof.
  induction xs as [|x xs IH]; [reflexivity|].
  simpl sorted_by_score_desc. rewrite insert_desc_filter. simpl.
  now rewrite IH.
Qed.

(** [precedes a b l]: an occurrence of [a] comes before one of [b]. *)
Definition precedes {A} (a b : A) (l : list A) : Prop :=
  exists l1 l2 l3, l = (l1 ++ a :: l2 ++ b :: l3)%list.

Section Precedes.
Context {A : Type} (f : A -> bool).

Lemma precedes_filter (a b : A) (l : list A) :
  f a = true -> f b = true ->
  precedes a b l -> precedes a b (filter f l).
Proof.
  intros Ha Hb (l1 & l2 & l3 & ->).
  exists (filter f l1), (filter f l2), (filter f l3).
  rewrite filter_app. simpl. rewrite Ha, filter_app. simpl. now rewrite Hb.
Qed.

Lemma filter_cons_inv (x : A) (l m : list A) :
  filter f l = x :: m ->
  exists l1 l2, l = (l1 ++ x :: l2)%list /\ filter f l2 = m.
Proof.
  induction l as [|y l IH]; simpl; [discriminate|].
  destruct (f y).
  - intros [= -> <-]. now exists [], l.
  - intros H. destruct (IH H) as (l1 & l2 & -> & <-).
    now exists (y :: l1), l2.
Qed.

Lemma filter_app_cons_inv (x : A) (m1 m2 l : list A) :
  filter f l = (m1 ++ x :: m2)%list ->
  exists l1 l2, l = (l1 ++ x :: l2)%list /\ filter f l2 = m2.
Proof.
  revert l. induction m1 as [|y m1 IH]; intros l H.
  - now apply filter_cons_inv.
  - destruct (filter_cons_inv _ _ _ H) as (l1 & l2 & -> & H2).
    destruct (IH _ H2) as (k1 & k2 & -> & <-).
    exists (l1 ++ y :: k1)%list, k2. now rewrite <- app_assoc.
Qed.

Lemma filter_precedes (a b : A) (l : list A) :
  precedes a b (filter f l) -> precedes a b l.
Proof.
  intros (m1 & m2 & m3 & H).
  destruct (filter_app_cons_inv _ _ _ _ H) as (l1 & l2 & -> & H2).
  destruct (filter_app_cons_inv _ _ _ _ H2) as (k1 & k2 & -> & _).
  now exists l1, k1, k2.
Qed.

End Precedes.

Lemma sorted_keeps_order (a b : Scored) (xs : list Scored) :
  score a = score b ->
  precedes a b xs -> precedes a b (sorted_by_score_desc xs).
Proof.
  intros E H. apply (filter_precedes (has_score (score a))).
  rewrite sorted_stable. apply precedes_filter; trivial; unfold has_score.
  - apply Z.eqb_refl.
  - now apply Z.eqb_eq.
Qed.

(** ** Reference premium (C1) *)

Lemma no_sum_insured_spec (xs : list Z) :
  no_sum_insured xs = true <-> xs = [] \/ xs = [0].
Proof.
  destruct xs as [|x [|y xs]]; simpl.
  - tauto.
  - rewrite Z.eqb_eq. split; [intros ->; now right|].
    intros [H|[= ->]]; [discriminate | reflexivity].
  - split; [discriminate|]. intros [H|H]; discriminate.
Qed.



(** ** Scoring (C2) *)



Lemma score_policy_eq (profile : UserProfile) (p : Policy)
    (reference : value) (diff : spec_float) :
  reference_premium p = Ok reference ->
  premium_diff_percent reference (preferred_premium_band profile) = Ok diff ->
  score_policy profile p =
  Ok (0 + premium_bonus diff + low_risk_bonus profile p
        + high_risk_bonus profile p).
Proof.
  intros Hr Hd. unfold score_policy. rewrite Hr. simpl. rewrite Hd.
  reflexivity.
Qed.

(** ** Eligibility (C3) *)

Lemma eligible_spec (profile : UserProfile) (p : Policy) :
  eligible profile p = true <-> min_age p <= age profile <= max_age p.
Proof.
  unfold eligible. rewrite andb_true_iff, !Z.leb_le. tauto.
Qed.

Lemma In_firstn {A} (n : nat) (x : A) (l : list A) :
  In x (firstn n l) -> In x l.
Proof.
  intros H. rewrite <- (firstn_skipn n l). apply in_or_app. now left.
Qed.

Lemma recommended_scored (policies_data : list Policy)
    (profile : UserProfile) (r : QuoteResponse) (p : Policy) :
  get_quote policies_data profile = Ok r ->
  In p (recommendations r) ->
  In p (eligible_policies policies_data profile) /\
  exists s, score_policy profile p = Ok s.
Proof.
  intros H Hin. destruct (get_quote_ok _ _ _ H) as (scored & Hl & Hr).
  rewrite Hr in Hin. apply in_map_iff in Hin as (x & <- & Hx).
  apply In_firstn in Hx.
  apply (Permutation_in _ (Permutation_sym (sorted_perm scored))) in Hx.
  apply score_loop_ok in Hl as [_ ->]. simpl in Hx.
  apply scored_entry_score in Hx as [H1 H2]. eauto.
Qed.

(** C3: a policy is kept exactly when
    [min_age <= profile.age <= max_age], the bounds being 0 and 100 when
    the key is missing from [eligibility]; every recommended policy
    satisfies the bounds. *)
Theorem C3_eligibility (policies_data : list Policy) (profile : UserProfile) :
  (forall p,
     In p (eligible_policies policies_data profile) <->
     In p policies_data /\ min_age p <= age profile <= max_age p)
  /\
  (forall p,
     (absent (eligibility p) "min_age" -> min_age p = 0) /\
     (absent (eligibility p) "max_age" -> max_age p = 100) /\
     (forall v, binds (eligibility p) "min_age" v -> min_age p = v) /\
     (forall v, binds (eligibility p) "max_age" v -> max_age p = v))
  /\
  (forall r,
     get_quote policies_data profile = Ok r ->
     forall p, In p (recommendations r) ->
       In p policies_data /\ min_age p <= age profile <= max_age p).
Proof.
  assert (Hkeep : forall p,
     In p (eligible_policies policies_data profile) <->
     In p policies_data /\ min_age p <= age profile <= max_age p).
  { intros p. unfold eligible_policies.
    now rewrite filter_In, eligible_spec. }
  split; [exact Hkeep | split].
  - intros p. unfold min_age, max_age. repeat split.
    + apply get_absent.
    + apply get_absent.
    + intros v. apply get_binds.
    + intros v. apply get_binds.
  - intros r Hr p Hin. apply Hkeep.
    now destruct (recommended_scored _ _ _ _ Hr Hin).
Qed.

Lemma C3_eligibility_witness :
  (In P1 (eligible_policies [P1] profile_A)) /\
  ~ In P1 (eligible_policies [P1] (mk_profile 10 "Low" 5000)) /\
  min_age P_flat = 0 /\ max_age P_flat = 100 /\
  min_age P1 = 18 /\ max_age P1 = 65 /\
  (18 <= age profile_A <= 65).
Proof.
  destruct (C3_eligibility [P1] profile_A) as (Hk & Hd & Hr).
  destruct (C3_eligibility [P1] (mk_profile 10 "Low" 5000)) as (Hk' & _ & _).
  destruct (Hd P_flat) as (D1 & D2 & _ & _).
  destruct (Hd P1) as (_ & _ & B1 & B2).
  assert (E1 : min_age P1 = 18).
  { apply B1. exists [], [("max_age", 65)].
    split; [reflexivity | intros []]. }
  assert (E2 : max_age P1 = 65).
  { apply B2. exists [("min_age", 18)], []. split; [reflexivity|].
    simpl. intros [H|[]]. discriminate H. }
  refine (conj _ (conj _ (conj _ (conj _ (conj E1 (conj E2 _)))))).
  - apply Hk. split; [now left|]. rewrite E1, E2. simpl. lia.
  - intros H. apply Hk' in H as [_ H]. rewrite E1 in H. simpl in H. lia.
  - apply D1. intros [].
  - apply D2. intros [].
  - destruct (Hr {| recommendations := [P1] |} eq_refl P1) as [_ H];
      [now left|]. now rewrite E1, E2 in H.
Defined.

(** ** What the handler absorbs and what it lets through (C4, C5) *)

(** A handled error skips the policy and the loop goes on. *)
Lemma handled_error_skips (profile : UserProfile) (p : Policy) (e : exn)
    (todo : list Policy) (scored : list Scored) :
  score_policy profile p = Raise e -> handled e = true ->
  score_loop profile (p :: todo) scored = score_loop profile todo scored.
Proof. intros H He. simpl. now rewrite H, He. Qed.

(** A premium that is not a number is such a handled error. *)
Lemma non_numeric_premium_skipped (profile : UserProfile) (p : Policy)
    (reference : value) :
  reference_premium p = Ok reference -> as_number reference = None ->
  score_policy profile p = Raise TypeError.
Proof.
  intros Hr Hn. unfold score_policy. rewrite Hr. simpl.
  unfold premium_diff_percent, sub. now rewrite Hn.
Qed.

(** An empty [premium_yearly] under the first-value rule is not: the
    lookup of element 0 raises [IndexError]. *)
Lemma empty_premium_mapping_raises (profile : UserProfile) (p : Policy) :
  no_sum_insured (sum_insured p) = true -> premium_yearly p = [] ->
  score_policy profile p = Raise IndexError.
Proof.
  intros Hs Hp. unfold score_policy, reference_premium.
  now rewrite Hs, Hp.
Qed.

(** C4, at the failing input: a catalogue whose first eligible policy has
    no coverage tiers and an empty premium mapping. Its scoring raises
    [IndexError], which the handler does not name, so the whole request
    fails and the policy behind it is never scored. A policy whose
    premium is malformed in another way (a string) is skipped as the
    claim says. *)
Theorem C4_empty_premium_mapping_aborts :
  eligible profile_A P_nopremium = true /\
  premium_yearly P_nopremium = [] /\
  score_policy profile_A P_nopremium = Raise IndexError /\
  handled IndexError = false /\
  get_quote [P_nopremium; P1] profile_A = Raise IndexError /\
  get_quote [P_strpremium; P1] profile_A = Ok {| recommendations := [P1] |}.
Proof. repeat split. Qed.

(** With a zero preference every numeric premium ends in the division
    error. *)
Lemma zero_band_division_error (profile : UserProfile) (p : Policy)
    (reference : value) :
  preferred_premium_band profile = 0 ->
  reference_premium p = Ok reference -> as_number reference <> None ->
  score_policy profile p = Raise ZeroDivisionError.
Proof.
  intros Hb Hr Hn. unfold score_policy. rewrite Hr, Hb. simpl.
  unfold premium_diff_percent, sub, abs, truediv.
  destruct (as_number reference) as [[x|f]|]; [| |congruence]; reflexivity.
Qed.

(** The division error leaves the loop as soon as the loop reaches such
    a policy. *)
Lemma zero_band_request_fails (policies_data : list Policy)
    (profile : UserProfile) (pre post : list Policy) (p : Policy)
    (reference : value) :
  preferred_premium_band profile = 0 ->
  eligible_policies policies_data profile = pre ++ p :: post ->
  Forall (passes profile) pre ->
  reference_premium p = Ok reference -> as_number reference <> None ->
  get_quote policies_data profile = Raise ZeroDivisionError.
Proof.
  intros Hb He Hpre Hr Hn. unfold get_quote. rewrite He.
  rewrite (score_loop_raises profile pre post p ZeroDivisionError);
    trivial.
  now apply zero_band_division_error with (reference := reference).
Qed.

Definition profile_zero : UserProfile := mk_profile 30 "Low" 0.

(** C5, at the failing input: preference 0 and the catalogue
    [[P_nopremium; P1]]. [P1] is eligible and its reference premium
    resolves to 5000, yet the request fails with the [IndexError] of the
    policy in front of it, not with the division error. On [[P1]] alone
    the division error is raised and is not absorbed by the handler. *)
Theorem C5_zero_band_behind_empty_mapping :
  preferred_premium_band profile_zero = 0 /\
  In P1 (eligible_policies [P_nopremium; P1] profile_zero) /\
  reference_premium P1 = Ok (PyInt 5000) /\
  get_quote [P_nopremium; P1] profile_zero = Raise IndexError /\
  get_quote [P1] profile_zero = Raise ZeroDivisionError /\
  handled ZeroDivisionError = false.
Proof.
  repeat split. right. now left.
Qed.

(** ** Ranking (C6) *)

Lemma precedes_map {A B} (g : A -> B) (a b : A) (l : list A) :
  precedes a b l -> precedes (g a) (g b) (map g l).
Proof.
  intros (l1 & l2 & l3 & ->). exists (map g l1), (map g l2), (map g l3).
  now rewrite map_app, (map_cons g a), map_app.
Qed.

(** C6: [scored_policies] lists the scored policies in catalogue order;
    the sort puts it in descending order of score, keeps its entries, and
    keeps every two entries of equal score in the order they had, so the
    one that is earlier in the catalogue comes out earlier. *)
Theorem C6_stable_ranking (policies_data : list Policy)
    (profile : UserProfile) (scored : list Scored) :
  score_loop profile (eligible_policies policies_data profile) [] = Ok scored ->
  let sorted_policies := sorted_by_score_desc scored in
  StronglySorted score_ge sorted_policies /\
  Permutation scored sorted_policies /\
  map policy scored =
    filter (scorable profile) (filter (eligible profile) policies_data) /\
  (forall a b, precedes a b scored ->
     precedes (policy a) (policy b) policies_data) /\
  (forall s, filter (has_score s) sorted_policies =
             filter (has_score s) scored) /\
  (forall a b, score a = score b ->
     precedes a b scored -> precedes a b sorted_policies).
Proof.
  intros H sorted_policies.
  apply score_loop_ok in H as [_ ->]. simpl app in *.
  assert (Hmap : map policy
            (flat_map (scored_entry profile)
               (eligible_policies policies_data profile)) =
          filter (scorable profile) (filter (eligible profile) policies_data))
    by apply scored_policies_filter.
  split; [apply sorted_desc|].
  split; [apply sorted_perm|].
  split; [exact Hmap|].
  split; [|split].
  - intros a b Hab. apply (precedes_map policy) in Hab. rewrite Hmap in Hab.
    now apply filter_precedes, filter_precedes in Hab.
  - intros s. apply sorted_stable.
  - intros a b. apply sorted_keeps_order.
Qed.

(** Two health policies that tie, behind a policy that scores less. *)
Definition P_motor : Policy :=
  mk_policy "M2" "Motor Plus" "motor" [0] [("flat", PyInt 5000)] [].
Definition P_health1 : Policy :=
  mk_policy "H1" "Health One" "health" [300000; 500000]
    [("300000", PyInt 5000); ("500000", PyInt 9000)] [("min_age", 18)].
Definition P_health2 : Policy :=
  mk_policy "H2" "Health Two" "health" [500000]
    [("500000", PyInt 5200)] [("max_age", 65)].
Definition P_life : Policy :=
  mk_policy "L1" "Term Life" "life" [1000000]
    [("1000000", PyInt 9000)] [].

Definition catalogue_4 : list Policy :=
  [P_motor; P_health1; P_health2; P_life].

Lemma C6_stable_ranking_witness :
  precedes {| policy := P_health1; score := 5 |}
           {| policy := P_health2; score := 5 |}
    (sorted_by_score_desc
       [ {| policy := P_motor; score := 3 |};
         {| policy := P_health1; score := 5 |};
         {| policy := P_health2; score := 5 |};
         {| policy := P_life; score := 2 |} ]) /\
  precedes P_health1 P_health2 catalogue_4.
Proof.
  destruct (C6_stable_ranking catalogue_4 profile_A _ eq_refl)
    as (_ & _ & _ & Hcat & _ & Hkeep).
  assert (Hpre : precedes {| policy := P_health1; score := 5 |}
                          {| policy := P_health2; score := 5 |}
                   [ {| policy := P_motor; score := 3 |};
                     {| policy := P_health1; score := 5 |};
                     {| policy := P_health2; score := 5 |};
                     {| policy := P_life; score := 2 |} ]).
  { exists [ {| policy := P_motor; score := 3 |} ], [],
      [ {| policy := P_life; score := 2 |} ]. reflexivity. }
  split.
  - apply Hkeep; [reflexivity | exact Hpre].
  - exact (Hcat _ _ Hpre).
Defined.

(** ** Truncation (C7) *)

Lemma get_quote_returns (policies_data : list Policy)
    (profile : UserProfile) :
  Forall (passes profile) (eligible_policies policies_data profile) ->
  exists r, get_quote policies_data profile = Ok r.
Proof.
  intros H. unfold get_quote. rewrite (score_loop_passes _ _ H). simpl.
  eauto.
Qed.

(** C7: whenever no eligible policy aborts the request a quote is
    returned, and a returned quote holds at most 3 recommendations: the
    first 3 entries of the sorted list, which is all of them when fewer
    than 3 policies were scored. *)
Theorem C7_truncation (policies_data : list Policy) (profile : UserProfile) :
  (Forall (passes profile) (eligible_policies policies_data profile) ->
   exists r, get_quote policies_data profile = Ok r)
  /\
  (forall r,
     get_quote policies_data profile = Ok r ->
     (List.length (recommendations r) <= 3)%nat /\
     exists scored,
       score_loop profile (eligible_policies policies_data profile) []
         = Ok scored
       /\ recommendations r
            = map policy (firstn 3 (sorted_by_score_desc scored))
       /\ ((List.length scored <= 3)%nat ->
           recommendations r = map policy (sorted_by_score_desc scored))
       /\ ((3 <= List.length scored)%nat ->
           List.length (recommendations r) = 3%nat)).
Proof.
  split; [apply get_quote_returns|].
  intros r H. destruct (get_quote_ok _ _ _ H) as (scored & Hl & Hr).
  pose proof (Permutation_length (sorted_perm scored)) as Hlen.
  split.
  - rewrite Hr, length_map. apply firstn_le_length.
  - exists scored. repeat split; trivial.
    + intros Hle. rewrite Hr, firstn_all2; [reflexivity | lia].
    + intros Hge. rewrite Hr, length_map, length_firstn. lia.
Qed.

Lemma C7_truncation_witness :
  get_quote catalogue_4 profile_A
    = Ok {| recommendations := [P_health1; P_health2; P_motor] |} /\
  (List.length [P_health1; P_health2; P_motor] <= 3)%nat.
Proof.
  split; [reflexivity|].
  destruct (C7_truncation catalogue_4 profile_A) as [_ H].
  exact (proj1 (H {| recommendations := [P_health1; P_health2; P_motor] |}
                  eq_refl)).
Defined.

(** ** Risk bonuses (C8) *)

(** C8 as stated fails: no profile and policy earn both risk bonuses in
    one pass, since one needs [risk_tolerance == "Low"] and the other
    [risk_tolerance == "High"]. *)
Lemma C8_no_stacking_counterexample :
  ~ exists (profile : UserProfile) (p : Policy),
      low_risk_bonus profile p = 2 /\ high_risk_bonus profile p = 3.
Proof.
  intros (profile & p & Hl & Hh).
  unfold low_risk_bonus, high_risk_bonus in *.
  destruct (String.eqb_spec (risk_tolerance profile) "Low") as [E|_];
    [|discriminate Hl].
  rewrite E in Hh. discriminate Hh.
Qed.

(** C8, amended: the two risk bonuses are added by separate statements,
    each on top of the proximity bonus, and each is attainable, but never
    both: at most one of them is non-zero, so the risk part of a score is
    0, 2 or 3. *)
Theorem C8_risk_bonuses_exclusive (profile : UserProfile) (p : Policy) :
  (low_risk_bonus profile p = 0 \/ high_risk_bonus profile p = 0) /\
  (low_risk_bonus profile p = 0 \/ low_risk_bonus profile p = 2) /\
  (high_risk_bonus profile p = 0 \/ high_risk_bonus profile p = 3) /\
  (forall reference diff,
     reference_premium p = Ok reference ->
     premium_diff_percent reference (preferred_premium_band profile)
       = Ok diff ->
     score_policy profile p =
     Ok (premium_bonus diff + low_risk_bonus profile p
           + high_risk_bonus profile p)) /\
  (exists profile' p', low_risk_bonus profile' p' = 2) /\
  (exists profile' p', high_risk_bonus profile' p' = 3).
Proof.
  refine (conj _ (conj _ (conj _ (conj _ (conj _ _))))).
  - unfold low_risk_bonus, high_risk_bonus.
    destruct (String.eqb_spec (risk_tolerance profile) "Low") as [E|_];
      [|now left].
    right. now rewrite E.
  - unfold low_risk_bonus. destruct (_ && _); auto.
  - unfold high_risk_bonus. destruct (_ && _); auto.
  - intros reference diff Hr Hd.
    now rewrite (score_policy_eq profile p reference diff Hr Hd).
  - now exists profile_A, P1.
  - exists (mk_profile 30 "High" 5000),
      (mk_policy "U1" "Wealth ULIP Plan" "investment" [0]
         [("flat", PyInt 5000)] []).
    reflexivity.
Qed.

Lemma C8_risk_bonuses_exclusive_witness :
  score_policy profile_A P1 = Ok (3 + 2 + 0).
Proof.
  destruct (C8_risk_bonuses_exclusive profile_A P1) as (_ & _ & _ & H & _).
  exact (H (PyInt 5000) (S754_zero false) eq_refl eq_refl).
Defined.

(** ** Negative preferences (C10) *)

Definition P_nan : Policy :=
  mk_policy "N1" "NaN" "motor" [0] [("flat", PyFloat S754_nan)] [].
Definition profile_negative : UserProfile := mk_profile 30 "High" (-5).

(** C10 as stated fails: a premium that is NaN resolves, the policy is
    scored, and the quotient is NaN, which is below no threshold. *)
Lemma C10_nan_premium_counterexample :
  ~ (forall (profile : UserProfile) (p : Policy) (reference : value)
            (diff : spec_float),
       preferred_premium_band profile < 0 ->
       reference_premium p = Ok reference ->
       premium_diff_percent reference (preferred_premium_band profile)
         = Ok diff ->
       premium_bonus diff = 3).
Proof.
  intros H.
  specialize (H profile_negative P_nan (PyFloat S754_nan) S754_nan).
  discriminate H; reflexivity.
Qed.

Lemma diff_numeric (reference : value) (band : Z) (diff : spec_float) :
  premium_diff_percent reference band = Ok diff ->
  reference <> PyFloat S754_nan -> numeric reference.
Proof.
  unfold premium_diff_percent, sub, numeric. intros H Hn.
  destruct reference as [|b|z|f|s]; simpl in *; trivial; try discriminate H.
  congruence.
Qed.

(** C10, amended: with a negative preference, every reference premium
    other than NaN whose quotient is computed gives a quotient that is
    negative or zero, so the policy gets the full proximity bonus of 3
    however far its premium is from the preference; a NaN premium gets
    none. The profile type takes any integer as preference: a request
    with preference -5 is served. *)
Theorem C10_negative_band (profile : UserProfile) (p : Policy)
    (reference : value) (diff : spec_float) :
  preferred_premium_band profile < 0 ->
  reference_premium p = Ok reference ->
  premium_diff_percent reference (preferred_premium_band profile) = Ok diff ->
  (reference <> PyFloat S754_nan ->
     (SFcompare diff (S754_zero false) = Some Lt \/
      SFcompare diff (S754_zero false) = Some Eq) /\
     premium_bonus diff = 3 /\
     score_policy profile p =
     Ok (3 + low_risk_bonus profile p + high_risk_bonus profile p)) /\
  (reference = PyFloat S754_nan ->
     diff = S754_nan /\ premium_bonus diff = 0) /\
  (forall st,
     fst (App.handle st (App.PostQuote profile)) =
     match get_quote (App.policies_data st) profile with
     | Ok r => App.Quote r
     | Raise e => App.ServerError e
     end).
Proof.
  intros Hb Hr Hd. refine (conj _ (conj _ _)).
  - intros Hn. pose proof (diff_numeric _ _ _ Hd Hn) as Hnum.
    destruct (has_sign_true_lt diff
                (negative_band_diff _ _ _ Hb Hnum Hd)) as [Hlt Hcmp].
    assert (Hbonus : premium_bonus diff = 3).
    { unfold premium_bonus. now rewrite Hlt. }
    split; [exact Hcmp | split; [exact Hbonus|]].
    rewrite (score_policy_eq profile p reference diff Hr Hd), Hbonus.
    reflexivity.
  - intros ->. unfold premium_diff_percent, sub in Hd.
    cbn [as_number] in Hd.
    destruct (float_of_int (preferred_premium_band profile)) as [g|e] eqn:Eg;
      [|discriminate Hd].
    cbn [bind abs truediv as_number] in Hd. rewrite Eg in Hd.
    cbn [bind] in Hd. unfold float_truediv in Hd.
    destruct (is_zero g); [discriminate Hd|].
    injection Hd as <-. split; reflexivity.
  - intros st. simpl. now destruct (get_quote _ _).
Qed.

Lemma C10_negative_band_witness :
  premium_bonus (S754_finite true 8804889115230208 (-43)) = 3 /\
  score_policy profile_negative P1 = Ok 3 /\
  fst (App.handle {| App.policies_data := [P1] |}
         (App.PostQuote profile_negative))
    = App.Quote {| recommendations := [P1] |}.
Proof.
  assert (Hb : preferred_premium_band profile_negative < 0) by reflexivity.
  destruct (C10_negative_band profile_negative P1 (PyInt 5000)
              (S754_finite true 8804889115230208 (-43)) Hb eq_refl eq_refl)
    as (H & _ & Hst).
  destruct H as (_ & Hbonus & Hscore); [discriminate|].
  split; [exact Hbonus | split; [exact Hscore|]].
  rewrite Hst. reflexivity.
Defined.

(** * Further properties of the service *)

(** ** A non-zero integer never converts to a zero float *)

Lemma digits2_pos_lower (m : positive) :
  2 ^ (Z.pos (digits2_pos m) - 1) <= Z.pos m.
Proof.
  induction m as [m IH|m IH|]; simpl digits2_pos.
  - rewrite Pos2Z.inj_succ.
    replace (Z.succ (Z.pos (digits2_pos m)) - 1)
      with (Z.succ (Z.pos (digits2_pos m) - 1)) by lia.
    rewrite Z.pow_succ_r by lia. lia.
  - rewrite Pos2Z.inj_succ.
    replace (Z.succ (Z.pos (digits2_pos m)) - 1)
      with (Z.succ (Z.pos (digits2_pos m) - 1)) by lia.
    rewrite Z.pow_succ_r by lia. lia.
  - simpl. lia.
Qed.

Lemma shr_1_lower (k : Z) (mrs : shr_record) :
  0 <= k -> 2 ^ (k + 1) <= shr_m mrs -> 2 ^ k <= shr_m (shr_1 mrs).
Proof.
  intros Hk. rewrite Z.pow_add_r by lia. change (2 ^ 1) with 2.
  pose proof (Z.pow_pos_nonneg 2 k ltac:(lia) Hk) as Hpos.
  destruct mrs as [m r s]. simpl.
  destruct m as [|[p|p|]|p]; simpl; intros H; try lia.
Qed.

Lemma iter_shr_1_lower (p : positive) :
  forall (k : Z) (mrs : shr_record),
    0 <= k -> 2 ^ (k + Z.pos p) <= shr_m mrs ->
    2 ^ k <= shr_m (iter_pos shr_1 p mrs).
Proof.
  induction p as [p IH|p IH|]; intros k mrs Hk H; simpl.
  - apply IH; [exact Hk|]. apply IH; [lia|].
    apply shr_1_lower; [lia|].
    replace (k + Z.pos p + Z.pos p + 1) with (k + Z.pos p~1) by lia.
    exact H.
  - apply IH; [exact Hk|]. apply IH; [lia|].
    replace (k + Z.pos p + Z.pos p) with (k + Z.pos p~0) by lia.
    exact H.
  - now apply shr_1_lower.
Qed.

Section NonZero.
Variables prec emax : Z.
Hypothesis prec_pos : 0 < prec.

Let emin := SpecFloat.emin prec emax.

(** Shifting a positive mantissa to its canonical exponent keeps it
    positive, provided the exponent is not below [emin]. *)
Lemma shr_fexp_positive (m : positive) (e : Z) (l : location) :
  emin <= e ->
  0 < shr_m (fst (shr_fexp prec emax (Z.pos m) e l)) /\
  emin <= snd (shr_fexp prec emax (Z.pos m) e l).
Proof.
  intros He. unfold shr_fexp, fexp. fold emin. simpl Zdigits2.
  set (d := Z.pos (digits2_pos m)).
  set (n := Z.max (d + e - prec) emin - e).
  assert (Hm : shr_m (shr_record_of_loc (Z.pos m) l) = Z.pos m)
    by (destruct l as [|[]]; reflexivity).
  destruct n as [|p|p] eqn:En; simpl; rewrite ?Hm; try (split; lia).
  split; [|lia].
  assert (Hp : Z.pos p <= d - 1) by (subst d; lia).
  pose proof (digits2_pos_lower m) as Hd. fold d in Hd.
  pose proof (iter_shr_1_lower p (d - 1 - Z.pos p)
                (shr_record_of_loc (Z.pos m) l)) as Hi.
  replace (d - 1 - Z.pos p + Z.pos p) with (d - 1) in Hi by lia.
  rewrite Hm in Hi. specialize (Hi ltac:(lia) Hd).
  pose proof (Z.pow_pos_nonneg 2 (d - 1 - Z.pos p) ltac:(lia) ltac:(lia)).
  lia.
Qed.

Lemma round_nearest_even_ge (m : Z) (l : location) :
  m <= round_nearest_even m l.
Proof.
  destruct l as [|[]]; simpl; try lia. destruct (Z.even m); lia.
Qed.

Lemma binary_round_aux_nonzero (sx : bool) (m : positive) (e : Z)
    (l : location) :
  emin <= e ->
  (exists m' e', binary_round_aux prec emax sx (Z.pos m) e l
                 = S754_finite sx m' e') \/
  binary_round_aux prec emax sx (Z.pos m) e l = S754_infinity sx.
Proof.
  intros He. unfold binary_round_aux.
  destruct (shr_fexp_positive m e l He) as [H1 H2].
  destruct (shr_fexp prec emax (Z.pos m) e l) as [mrs' e']. simpl in H1, H2.
  pose proof (round_nearest_even_ge (shr_m mrs') (loc_of_shr_record mrs'))
    as Hr.
  destruct (round_nearest_even (shr_m mrs') (loc_of_shr_record mrs'))
    as [|m1|m1]; try lia.
  destruct (shr_fexp_positive m1 e' loc_Exact H2) as [H3 _].
  destruct (shr_fexp prec emax (Z.pos m1) e' loc_Exact) as [mrs'' e''].
  simpl in H3. destruct (shr_m mrs'') as [|m2|m2]; try lia.
  destruct (e'' <=? emax - prec); eauto.
Qed.

Lemma binary_round_nonzero (sx : bool) (m : positive) (e : Z) :
  emin <= e ->
  (exists m' e', binary_round prec emax sx m e = S754_finite sx m' e') \/
  binary_round prec emax sx m e = S754_infinity sx.
Proof.
  intros He. unfold binary_round, shl_align, fexp. fold emin.
  set (e1 := Z.max (Z.pos (digits2_pos m) + e - prec) emin).
  destruct (e1 - e) as [|p|p] eqn:E;
    apply binary_round_aux_nonzero; lia.
Qed.

End NonZero.

Lemma float_of_int_finite (z : Z) (g : spec_float) :
  float_of_int z = Ok g -> z <> 0 ->
  exists m e, g = S754_finite (z <? 0) m e.
Proof.
  unfold float_of_int, binary_normalize. intros H Hz.
  destruct z as [|p|p]; [congruence| |].
  - destruct (binary_round_nonzero prec emax eq_refl false p 0)
      as [(m & e & E)|E]; [discriminate| |]; rewrite E in H.
    + injection H as <-. eauto.
    + discriminate H.
  - destruct (binary_round_nonzero prec emax eq_refl true p 0)
      as [(m & e & E)|E]; [discriminate| |]; rewrite E in H.
    + injection H as <-. eauto.
    + discriminate H.
Qed.

(** ** Which errors a policy can raise, and when *)

Lemma reference_premium_raises (p : Policy) (e : exn) :
  reference_premium p = Raise e ->
  e = IndexError /\ no_sum_insured (sum_insured p) = true /\
  premium_yearly p = [].
Proof.
  unfold reference_premium.
  destruct (no_sum_insured (sum_insured p)) eqn:E.
  - destruct (premium_yearly p) as [|[k v] d]; simpl; [|discriminate].
    intros [= <-]. auto.
  - destruct (sum_insured p) as [|x xs]; [discriminate E|].
    simpl. discriminate.
Qed.

Lemma premium_diff_percent_raises (reference : value) (band : Z) (e : exn) :
  premium_diff_percent reference band = Raise e ->
  (e = TypeError /\ as_number reference = None) \/
  (e = ZeroDivisionError /\ band = 0 /\ as_number reference <> None) \/
  (e = OverflowError /\ band <> 0 /\ as_number reference <> None).
Proof.
  unfold premium_diff_percent, sub. cbn [as_number].
  destruct (as_number reference) as [[x|f]|].
  - cbn [bind abs truediv as_number]. unfold int_truediv.
    destruct (Z.eqb_spec band 0) as [->|Hb].
    + intros [= <-]. right; left. repeat split. discriminate.
    + destruct (Z.abs (x - band) =? 0); [discriminate|].
      destruct (SFdiv prec emax _ _); try discriminate.
      intros [= <-]. right; right. repeat split; trivial. discriminate.
  - destruct (float_of_int band) as [g|e'] eqn:Eg; cbn [bind].
    + cbn [abs truediv as_number bind]. rewrite Eg. cbn [bind].
      unfold float_truediv. destruct (is_zero g) eqn:Ez; [|discriminate].
      intros [= <-]. right; left. repeat split; [|discriminate].
      destruct (Z.eq_dec band 0) as [|Hb]; [assumption|].
      destruct (float_of_int_finite _ _ Eg Hb) as (m & e0 & ->).
      discriminate Ez.
    + intros [= <-]. right; right.
      assert (Hb : band <> 0) by (intros ->; discriminate Eg).
      unfold float_of_int in Eg.
      destruct (binary_normalize prec emax band 0 false);
        try discriminate Eg.
      injection Eg as <-. repeat split; trivial. discriminate.
  - intros [= <-]. left. auto.
Qed.

Lemma score_policy_ok (profile : UserProfile) (p : Policy) (s : Z) :
  score_policy profile p = Ok s ->
  exists reference diff,
    reference_premium p = Ok reference /\
    premium_diff_percent reference (preferred_premium_band profile)
      = Ok diff /\
    s = premium_bonus diff + low_risk_bonus profile p
        + high_risk_bonus profile p.
Proof.
  unfold score_policy.
  destruct (reference_premium p) as [reference|e]; [|discriminate].
  cbn [bind].
  destruct (premium_diff_percent reference _) as [diff|e] eqn:E;
    [|discriminate].
  cbn [bind]. intros [= <-]. exists reference, diff.
  split; [reflexivity | split; [exact E | lia]].
Qed.

Lemma score_policy_raises (profile : UserProfile) (p : Policy) (e : exn) :
  score_policy profile p = Raise e ->
  reference_premium p = Raise e \/
  exists reference,
    reference_premium p = Ok reference /\
    premium_diff_percent reference (preferred_premium_band profile)
      = Raise e.
Proof.
  unfold score_policy.
  destruct (reference_premium p) as [reference|e']; cbn [bind].
  - destruct (premium_diff_percent reference _) as [diff|e'] eqn:E;
      cbn [bind]; [discriminate|].
    intros [= <-]. right. now exists reference.
  - intros [= <-]. now left.
Qed.

Lemma risk_bonus_range (profile : UserProfile) (p : Policy) :
  0 <= low_risk_bonus profile p + high_risk_bonus profile p <= 3.
Proof.
  unfold low_risk_bonus, high_risk_bonus.
  destruct (String.eqb_spec (risk_tolerance profile) "Low") as [E|_].
  - rewrite E. cbn [andb String.eqb Ascii.eqb Bool.eqb].
    destruct (str_in _ _); cbn; lia.
  - cbn [andb]. destruct (_ && _); lia.
Qed.

(** X1: a score lies between 0 and 6, and both ends are reached. *)
Theorem X1_score_bounds :
  (forall (profile : UserProfile) (p : Policy) (s : Z),
     score_policy profile p = Ok s -> 0 <= s <= 6) /\
  (exists profile p, score_policy profile p = Ok 0) /\
  (exists profile p, score_policy profile p = Ok 6).
Proof.
  split; [|split].
  - intros profile p s H.
    destruct (score_policy_ok _ _ _ H) as (reference & diff & _ & _ & ->).
    pose proof (risk_bonus_range profile p) as Hr.
    assert (Hp : 0 <= premium_bonus diff <= 3).
    { unfold premium_bonus.
      destruct (float_lt diff lit_0_2), (float_lt diff lit_0_5); lia. }
    lia.
  - now exists (mk_profile 30 "Medium" 5000), P_life.
  - exists (mk_profile 30 "High" 5000),
      (mk_policy "U1" "Wealth ULIP Plan" "investment" [0]
         [("flat", PyInt 5000)] []).
    reflexivity.
Qed.

Lemma X1_score_bounds_witness : 0 <= 5 <= 6.
Proof.
  destruct X1_score_bounds as [H _].
  exact (H profile_A P1 5 eq_refl).
Defined.

(** X2: scoring a policy never raises [ValueError]: the [min] of line
    132 is only reached with a non-empty list. A request can therefore
    fail in three ways only. *)
Theorem X2_error_classes (policies_data : list Policy)
    (profile : UserProfile) :
  (forall p, score_policy profile p <> Raise ValueError) /\
  (forall e, get_quote policies_data profile = Raise e ->
     e = IndexError \/ e = ZeroDivisionError \/ e = OverflowError).
Proof.
  assert (Hcls : forall p e, score_policy profile p = Raise e ->
            e = TypeError \/ e = IndexError \/ e = ZeroDivisionError \/
            e = OverflowError).
  { intros p e H. destruct (score_policy_raises _ _ _ H) as [Hr|(r & _ & Hd)].
    - apply reference_premium_raises in Hr as [-> _]. auto.
    - apply premium_diff_percent_raises in Hd
        as [[-> _]|[[-> _]|[-> _]]]; auto. }
  split.
  - intros p H. apply Hcls in H as [H|[H|[H|H]]]; discriminate H.
  - intros e. unfold get_quote.
    generalize (eligible_policies policies_data profile) ([] : list Scored).
    intros todo. induction todo as [|p todo IH]; intros scored; simpl.
    + discriminate.
    + destruct (score_policy profile p) as [s|e'] eqn:E; [apply IH|].
      destruct (handled e') eqn:He; [apply IH|]. simpl.
      intros [= <-]. apply Hcls in E as [-> | [-> | [-> | ->]]]; auto.
      discriminate He.
Qed.

Lemma X2_error_classes_witness :
  IndexError = IndexError \/ IndexError = ZeroDivisionError \/
  IndexError = OverflowError.
Proof.
  destruct (X2_error_classes [P_nopremium; P1] profile_A) as [_ H].
  exact (H IndexError eq_refl).
Defined.

(** X3: scoring a policy raises [IndexError] exactly when the policy has
    no coverage tier (or the single tier 0) and no premium at all. *)
Theorem X3_index_error_iff (profile : UserProfile) (p : Policy) :
  score_policy profile p = Raise IndexError <->
  (sum_insured p = [] \/ sum_insured p = [0]) /\ premium_yearly p = [].
Proof.
  split.
  - intros H. destruct (score_policy_raises _ _ _ H) as [Hr|(r & _ & Hd)].
    + apply reference_premium_raises in Hr as (_ & Hs & Hp).
      now apply no_sum_insured_spec in Hs.
    + apply premium_diff_percent_raises in Hd
        as [[E _]|[[E _]|[E _]]]; discriminate E.
  - intros [Hs Hp]. apply empty_premium_mapping_raises; trivial.
    now apply no_sum_insured_spec.
Qed.

Lemma X3_index_error_iff_witness :
  score_policy profile_A P_nopremium = Raise IndexError.
Proof.
  apply (X3_index_error_iff profile_A P_nopremium).
  split; [now left | reflexivity].
Defined.

(** X4: scoring a policy raises [ZeroDivisionError] exactly when the
    preferred premium is 0 and the reference premium is a number; a
    non-zero preference never divides by zero. *)
Theorem X4_zero_division_iff (profile : UserProfile) (p : Policy) :
  score_policy profile p = Raise ZeroDivisionError <->
  preferred_premium_band profile = 0 /\
  exists reference,
    reference_premium p = Ok reference /\ as_number reference <> None.
Proof.
  split.
  - intros H. destruct (score_policy_raises _ _ _ H) as [Hr|(r & Hr & Hd)].
    + apply reference_premium_raises in Hr as [E _]. discriminate E.
    + apply premium_diff_percent_raises in Hd
        as [[E _]|[(_ & Hb & Hn)|[E _]]]; try discriminate E.
      split; [exact Hb | now exists r].
  - intros (Hb & r & Hr & Hn).
    now apply zero_band_division_error with (reference := r).
Qed.

Lemma X4_zero_division_iff_witness :
  score_policy profile_zero P1 = Raise ZeroDivisionError.
Proof.
  apply (X4_zero_division_iff profile_zero P1).
  split; [reflexivity|]. exists (PyInt 5000).
  split; [reflexivity | discriminate].
Defined.

(** X5: scoring a policy raises [TypeError] exactly when its reference
    premium resolves to something that is not a number; such a policy is
    passed over and the rest of the catalogue is scored as if it were
    not there. *)
Theorem X5_type_error_iff (profile : UserProfile) (p : Policy) :
  (score_policy profile p = Raise TypeError <->
   exists reference,
     reference_premium p = Ok reference /\ as_number reference = None) /\
  (score_policy profile p = Raise TypeError ->
   forall todo scored,
     score_loop profile (p :: todo) scored = score_loop profile todo scored).
Proof.
  split.
  - split.
    + intros H. destruct (score_policy_raises _ _ _ H) as [Hr|(r & Hr & Hd)].
      * apply reference_premium_raises in Hr as [E _]. discriminate E.
      * apply premium_diff_percent_raises in Hd
          as [[_ Hn]|[[E _]|[E _]]]; try discriminate E.
        now exists r.
    + intros (r & Hr & Hn).
      now apply non_numeric_premium_skipped with (reference := r).
  - intros H todo scored.
    now apply handled_error_skips with (e := TypeError).
Qed.

Lemma X5_type_error_iff_witness :
  score_policy profile_A P_strpremium = Raise TypeError /\
  score_loop profile_A [P_strpremium; P1] [] = score_loop profile_A [P1] [].
Proof.
  destruct (X5_type_error_iff profile_A P_strpremium) as [Hiff Hskip].
  assert (H : score_policy profile_A P_strpremium = Raise TypeError).
  { apply Hiff. exists (PyStr "12000"). split; reflexivity. }
  split; [exact H | exact (Hskip H [P1] [])].
Defined.

(** ** When a request fails *)

Lemma score_loop_raise_inv (profile : UserProfile) (e : exn)
    (todo : list Policy) :
  forall scored,
    score_loop profile todo scored = Raise e ->
    exists pre p post,
      todo = pre ++ p :: post /\ Forall (passes profile) pre /\
      score_policy profile p = Raise e /\ handled e = false.
Proof.
  induction todo as [|q todo IH]; intros scored; simpl; [discriminate|].
  destruct (score_policy profile q) as [s|e'] eqn:E.
  - intros H. destruct (IH _ H) as (pre & p & post & -> & Hpre & Hp & He).
    exists (q :: pre), p, post. repeat split; trivial.
    constructor; [|exact Hpre]. unfold passes. rewrite E. discriminate.
  - destruct (handled e') eqn:He'.
    + intros H. destruct (IH _ H) as (pre & p & post & -> & Hpre & Hp & He).
      exists (q :: pre), p, post. repeat split; trivial.
      constructor; [|exact Hpre]. unfold passes. rewrite E.
      now intros e0 [= <-].
    + intros [= <-]. exists [], q, todo. repeat split; trivial.
Qed.

(** X6: a request fails exactly when some eligible policy raises an
    error outside the handler while every eligible policy before it was
    scored or skipped, and it fails with that error; it succeeds exactly
    when no eligible policy raises such an error. *)
Theorem X6_request_failure (policies_data : list Policy)
    (profile : UserProfile) :
  (forall e,
     get_quote policies_data profile = Raise e <->
     exists pre p post,
       eligible_policies policies_data profile = pre ++ p :: post /\
       Forall (passes profile) pre /\
       score_policy profile p = Raise e /\ handled e = false) /\
  ((exists r, get_quote policies_data profile = Ok r) <->
   Forall (passes profile) (eligible_policies policies_data profile)).
Proof.
  split.
  - intros e. split.
    + unfold get_quote. intros H.
      destruct (score_loop profile _ []) as [scored|e'] eqn:E;
        [discriminate H|].
      injection H as <-. now apply score_loop_raise_inv in E.
    + intros (pre & p & post & Hel & Hpre & Hp & He).
      unfold get_quote. rewrite Hel.
      now rewrite (score_loop_raises profile pre post p e).
  - split.
    + intros [r H]. destruct (get_quote_ok _ _ _ H) as (scored & Hl & _).
      now apply score_loop_ok in Hl.
    + apply get_quote_returns.
Qed.

Lemma X6_request_failure_witness :
  get_quote [P_strpremium; P_nopremium; P1] profile_A = Raise IndexError.
Proof.
  destruct (X6_request_failure [P_strpremium; P_nopremium; P1] profile_A)
    as [H _].
  apply H. exists [P_strpremium], P_nopremium, [P1].
  repeat split.
  constructor; [|constructor]. intros e [= <-]. reflexivity.
Defined.

(** X7: with a preferred premium of 0 no policy is ever scored, so a
    request that does not fail returns no recommendation. *)
Theorem X7_zero_band_empty (policies_data : list Policy)
    (profile : UserProfile) (r : QuoteResponse) :
  preferred_premium_band profile = 0 ->
  get_quote policies_data profile = Ok r ->
  recommendations r = [].
Proof.
  intros Hb H. destruct (get_quote_ok _ _ _ H) as (scored & Hl & ->).
  apply score_loop_ok in Hl as [_ ->]. simpl app.
  assert (Hnone : forall todo, flat_map (scored_entry profile) todo = []).
  { induction todo as [|p todo IH]; simpl; [reflexivity|].
    rewrite IH, app_nil_r. unfold scored_entry.
    destruct (score_policy profile p) as [s|e] eqn:E; [|reflexivity].
    destruct (score_policy_ok _ _ _ E) as (ref & diff & Hr & Hd & _).
    rewrite Hb in Hd. unfold premium_diff_percent, sub in Hd.
    cbn [as_number] in Hd.
    destruct (as_number ref) as [[x|f]|]; discriminate Hd. }
  now rewrite Hnone.
Qed.

Lemma X7_zero_band_empty_witness :
  recommendations {| recommendations := [] |} = [].
Proof.
  exact (X7_zero_band_empty [P_strpremium] profile_zero
           {| recommendations := [] |} eq_refl eq_refl).
Defined.

(** X8: when the age fits no policy of the catalogue, the answer is an
    empty list of recommendations, never an error, whatever the premiums
    and the preference are. In particular an empty catalogue answers
    every request with an empty list. *)
Theorem X8_no_eligible_policy (policies_data : list Policy)
    (profile : UserProfile) :
  (forall p, In p policies_data ->
     ~ (min_age p <= age profile <= max_age p)) ->
  get_quote policies_data profile = Ok {| recommendations := [] |}.
Proof.
  intros H. unfold get_quote.
  assert (E : eligible_policies policies_data profile = []).
  { unfold eligible_policies. induction policies_data as [|p ps IH];
      [reflexivity|]. simpl.
    destruct (eligible profile p) eqn:Ep.
    - apply eligible_spec in Ep. exfalso. apply (H p); [now left | exact Ep].
    - apply IH. intros q Hq. apply H. now right. }
  now rewrite E.
Qed.

Lemma X8_no_eligible_policy_witness :
  get_quote [P_nopremium; P1] (mk_profile 101 "Low" 0)
    = Ok {| recommendations := [] |}.
Proof.
  apply X8_no_eligible_policy.
  intros p [<-|[<-|[]]]; vm_compute; intros [H1 H2];
    try (apply H1; reflexivity); try (apply H2; reflexivity).
Defined.

(** ** What is recommended *)

Lemma StronglySorted_app_inv {A} (R : A -> A -> Prop) (l1 l2 : list A) :
  StronglySorted R (l1 ++ l2) ->
  StronglySorted R l1 /\
  forall x y, In x l1 -> In y l2 -> R x y.
Proof.
  induction l1 as [|a l1 IH]; simpl; intros H.
  - split; [constructor | intros x y []].
  - inversion H as [|? ? Hs Hall]; subst.
    destruct (IH Hs) as [Hs1 Hx]. split.
    + constructor; [exact Hs1|].
      rewrite Forall_forall in *. intros x Hin. apply Hall.
      apply in_or_app. now left.
    + intros x y [<-|Hin] Hy; [|now apply Hx].
      rewrite Forall_forall in Hall. apply Hall, in_or_app. now right.
Qed.

(** X9: the recommendations are the best-scored policies: they come in
    descending order of score, and a scored policy is left out only
    when three policies that score at least as much are recommended. *)
Theorem X9_top_scores (policies_data : list Policy) (profile : UserProfile)
    (r : QuoteResponse) :
  get_quote policies_data profile = Ok r ->
  exists scored top rest,
    score_loop profile (eligible_policies policies_data profile) []
      = Ok scored /\
    Permutation scored (top ++ rest) /\
    recommendations r = map policy top /\
    StronglySorted score_ge top /\
    (forall x y, In x top -> In y rest -> score y <= score x) /\
    (rest <> [] -> List.length top = 3%nat).
Proof.
  intros H. destruct (get_quote_ok _ _ _ H) as (scored & Hl & Hr).
  set (sorted := sorted_by_score_desc scored) in *.
  exists scored, (firstn 3 sorted), (skipn 3 sorted).
  pose proof (sorted_desc scored) as Hs. fold sorted in Hs.
  rewrite <- (firstn_skipn 3 sorted) in Hs.
  apply StronglySorted_app_inv in Hs as [Hs1 Hs2].
  repeat split; trivial.
  - rewrite firstn_skipn. apply sorted_perm.
  - intros Hrest. rewrite length_firstn.
    destruct (Nat.le_gt_cases (List.length sorted) 3) as [Hle|Hgt];
      [|lia].
    exfalso. apply Hrest. now apply skipn_all2.
Qed.

Lemma X9_top_scores_witness :
  exists scored top rest,
    score_loop profile_A (eligible_policies catalogue_4 profile_A) []
      = Ok scored /\
    Permutation scored (top ++ rest) /\
    [P_health1; P_health2; P_motor] = map policy top /\
    StronglySorted score_ge top /\
    (forall x y, In x top -> In y rest -> score y <= score x) /\
    (rest <> [] -> List.length top = 3%nat).
Proof.
  exact (X9_top_scores catalogue_4 profile_A
           {| recommendations := [P_health1; P_health2; P_motor] |} eq_refl).
Defined.

Lemma NoDup_firstn {A} (n : nat) (l : list A) :
  NoDup l -> NoDup (firstn n l).
Proof.
  intros H. rewrite <- (firstn_skipn n l) in H.
  now apply NoDup_app_remove_r in H.
Qed.

(** X10: a catalogue without repeated policies never has a policy
    recommended twice. *)
Theorem X10_no_repeats (policies_data : list Policy) (profile : UserProfile)
    (r : QuoteResponse) :
  NoDup policies_data ->
  get_quote policies_data profile = Ok r ->
  NoDup (recommendations r).
Proof.
  intros Hnd H. destruct (get_quote_ok _ _ _ H) as (scored & Hl & ->).
  rewrite <- firstn_map. apply NoDup_firstn.
  apply (Permutation_NoDup (Permutation_map policy (sorted_perm scored))).
  apply score_loop_ok in Hl as [_ ->]. simpl app.
  rewrite scored_policies_filter.
  apply NoDup_filter. unfold eligible_policies. now apply NoDup_filter.
Qed.

Lemma X10_no_repeats_witness : NoDup [P_health1; P_health2; P_motor].
Proof.
  apply (X10_no_repeats catalogue_4 profile_A
           {| recommendations := [P_health1; P_health2; P_motor] |});
    [|reflexivity].
  repeat constructor; simpl; intuition discriminate.
Defined.

(** ** What the engine does not look at *)

Lemma score_loop_ext (profile1 profile2 : UserProfile) (todo : list Policy) :
  (forall p, score_policy profile1 p = score_policy profile2 p) ->
  forall scored,
    score_loop profile1 todo scored = score_loop profile2 todo scored.
Proof.
  intros Hs. induction todo as [|p todo IH]; intros scored; simpl;
    [reflexivity|].
  rewrite Hs. destruct (score_policy profile2 p) as [s|e]; [apply IH|].
  destruct (handled e); [apply IH | reflexivity].
Qed.

(** X11: the answer depends on the profile through [age],
    [risk_tolerance] and [preferred_premium_band] only; the number of
    dependents, the income, the vehicle type and the health flags never
    change it. *)
Theorem X11_unused_profile_fields (policies_data : list Policy)
    (profile1 profile2 : UserProfile) :
  age profile1 = age profile2 ->
  risk_tolerance profile1 = risk_tolerance profile2 ->
  preferred_premium_band profile1 = preferred_premium_band profile2 ->
  get_quote policies_data profile1 = get_quote policies_data profile2.
Proof.
  intros Ha Hr Hb. unfold get_quote, eligible_policies.
  assert (E : filter (eligible profile1) policies_data =
              filter (eligible profile2) policies_data).
  { apply filter_ext. intros p. unfold eligible. now rewrite Ha. }
  rewrite E. rewrite (score_loop_ext profile1 profile2); [reflexivity|].
  intros p. unfold score_policy, low_risk_bonus, high_risk_bonus.
  now rewrite Hb, Hr.
Qed.

Lemma X11_unused_profile_fields_witness :
  get_quote catalogue_4
    {| age := 30; dependents_count := 4; annual_income_band := 900000;
       risk_tolerance := "Low"; preferred_premium_band := 5000;
       vehicle_type := Some "Car"; health_flags := Some ["Smoker"] |}
  = get_quote catalogue_4 profile_A.
Proof.
  apply X11_unused_profile_fields; reflexivity.
Defined.

(** X12: a policy whose reference premium equals a non-zero preferred
    premium gets the full proximity bonus. *)
Theorem X12_exact_match (profile : UserProfile) (p : Policy) :
  preferred_premium_band profile <> 0 ->
  reference_premium p = Ok (PyInt (preferred_premium_band profile)) ->
  score_policy profile p =
  Ok (3 + low_risk_bonus profile p + high_risk_bonus profile p).
Proof.
  intros Hb Hr.
  assert (Hd : premium_diff_percent
                 (PyInt (preferred_premium_band profile))
                 (preferred_premium_band profile)
               = Ok (S754_zero (preferred_premium_band profile <? 0))).
  { unfold premium_diff_percent. cbn. unfold int_truediv.
    rewrite Z.sub_diag.
    destruct (Z.eqb_spec (preferred_premium_band profile) 0);
      [contradiction | reflexivity]. }
  rewrite (score_policy_eq profile p _ _ Hr Hd).
  now destruct (preferred_premium_band profile <? 0).
Qed.

Lemma X12_exact_match_witness : score_policy profile_A P1 = Ok (3 + 2 + 0).
Proof.
  apply (X12_exact_match profile_A P1); [discriminate | reflexivity].
Defined.

(** ** Policies that do not count *)

Lemma score_loop_app (profile : UserProfile) (todo1 todo2 : list Policy) :
  forall scored,
    score_loop profile (todo1 ++ todo2) scored =
    (scored' <- score_loop profile todo1 scored ;;
     score_loop profile todo2 scored').
Proof.
  induction todo1 as [|p todo1 IH]; intros scored; simpl; [reflexivity|].
  destruct (score_policy profile p) as [s|e]; [apply IH|].
  destruct (handled e); [apply IH | reflexivity].
Qed.

(** X13: a policy that is not eligible for the profile, or whose scoring
    raises an error the handler names, has no effect on the answer: the
    catalogue without it gives the same response. *)
Theorem X13_discounted_policy (before after : list Policy) (q : Policy)
    (profile : UserProfile) :
  eligible profile q = false \/
  (exists e, score_policy profile q = Raise e /\ handled e = true) ->
  get_quote (before ++ q :: after) profile =
  get_quote (before ++ after) profile.
Proof.
  intros H. unfold get_quote, eligible_policies.
  rewrite !filter_app. simpl filter.
  destruct (eligible profile q) eqn:Eq; [|reflexivity].
  destruct H as [H|(e & He & Hh)]; [discriminate H|].
  rewrite !score_loop_app.
  destruct (score_loop profile (filter (eligible profile) before) [])
    as [scored|e']; [|reflexivity].
  cbn [bind]. now rewrite (handled_error_skips profile q e).
Qed.

Lemma X13_discounted_policy_witness :
  get_quote ([P_motor] ++ P_strpremium :: [P1]) profile_A =
  get_quote ([P_motor] ++ [P1]) profile_A.
Proof.
  apply X13_discounted_policy. right. now exists TypeError.
Defined.

(** ** Start-up *)

(** What reading [policies.json] comes to (lines 28-41): the parsed
    list, a missing file, or any other exception with its message. *)
Inductive load_outcome : Type :=
| Loaded (ps : list Policy)
| FileNotFound
| LoadException (msg : string).

(** The state the module ends up in, and the line it prints. *)
Definition startup (o : load_outcome) : App.state * string :=
  match o with
  | Loaded ps =>
      ({| App.policies_data := ps |},
       ("Successfully loaded "
          ++ str_of_int (Z.of_nat (List.length ps)) ++ " policies")%string)
  | FileNotFound =>
      ({| App.policies_data := [] |},
       "ERROR: policies.json not found. Please ensure the file is in the same directory.")
  | LoadException msg =>
      ({| App.policies_data := [] |},
       ("ERROR loading policies: " ++ msg)%string)
  end.

(** A response of a service that holds no policy. *)
Definition degraded (resp : App.response) : Prop :=
  match resp with
  | App.RootStatus n | App.Health n => n = 0%nat
  | App.Policies qs => qs = []
  | App.Quote r => recommendations r = []
  | App.Handoff => True
  | App.ServerError _ => False
  end.

(** X15: when the catalogue file is missing or cannot be read, the
    service still answers every request: counts are 0, the policy list
    and every list of recommendations are empty, and no quote request
    fails, whatever the profile (a preferred premium of 0 included). *)
Theorem X15_failed_load (o : load_outcome) (rqs : list App.request) :
  (forall ps, o <> Loaded ps) ->
  Forall degraded (fst (App.run (fst (startup o)) rqs)).
Proof.
  intros Ho.
  assert (Hst : fst (startup o) = {| App.policies_data := [] |}).
  { destruct o; trivial. now destruct (Ho ps). }
  rewrite Hst. clear.
  induction rqs as [|rq rqs IH]; simpl; [constructor|].
  destruct rq; simpl;
    destruct (App.run {| App.policies_data := [] |} rqs) as [rs st'];
    constructor; simpl in *; trivial.
Qed.

Lemma X15_failed_load_witness :
  Forall degraded
    [App.Health 0; App.Quote {| recommendations := [] |}; App.Policies []].
Proof.
  apply (X15_failed_load FileNotFound
           [App.GetHealth; App.PostQuote profile_zero; App.GetPolicies]).
  intros ps. discriminate.
Defined.

(** ** Results within range do not overflow *)

Lemma digits2_pos_upper (m : positive) :
  Z.pos m < 2 ^ Z.pos (digits2_pos m).
Proof.
  induction m as [m IH|m IH|]; simpl digits2_pos;
    rewrite ?Pos2Z.inj_succ, ?Z.pow_succ_r by lia; try lia.
Qed.

Lemma Zdigits2_le (m k : Z) :
  0 <= k -> 0 <= m < 2 ^ k -> Zdigits2 m <= k.
Proof.
  intros Hk [H0 Hm]. destruct m as [|p|p]; simpl; try lia.
  pose proof (digits2_pos_lower p) as Hl.
  destruct (Z.le_gt_cases (Z.pos (digits2_pos p)) k) as [|Hgt]; [assumption|].
  assert (2 ^ k <= 2 ^ (Z.pos (digits2_pos p) - 1))
    by (apply Z.pow_le_mono_r; lia).
  lia.
Qed.

Lemma Zdigits2_upper (m : Z) : 0 <= m -> m < 2 ^ Zdigits2 m.
Proof.
  destruct m as [|p|p]; simpl; intros H; try lia.
  apply digits2_pos_upper.
Qed.

Lemma Zdigits2_nonneg (m : Z) : 0 <= Zdigits2 m.
Proof. destruct m; simpl; lia. Qed.

Lemma shr_1_upper (mrs : shr_record) :
  0 <= shr_m mrs -> 2 * shr_m (shr_1 mrs) <= shr_m mrs.
Proof.
  destruct mrs as [m r s]. simpl.
  destruct m as [|[p|p|]|p]; simpl; lia.
Qed.

Lemma iter_shr_1_upper (p : positive) :
  forall mrs : shr_record,
    0 <= shr_m mrs ->
    0 <= shr_m (iter_pos shr_1 p mrs) /\
    2 ^ Z.pos p * shr_m (iter_pos shr_1 p mrs) <= shr_m mrs.
Proof.
  assert (H1 : forall mrs, 0 <= shr_m mrs ->
            0 <= shr_m (shr_1 mrs) /\ 2 ^ 1 * shr_m (shr_1 mrs) <= shr_m mrs).
  { intros mrs H. split; [now apply shr_1_nonneg|].
    change (2 ^ 1) with 2. now apply shr_1_upper. }
  induction p as [p IH|p IH|]; intros mrs H; simpl iter_pos.
  - destruct (H1 mrs H) as [Ha Hb].
    destruct (IH _ Ha) as [Hc Hd]. destruct (IH _ Hc) as [He Hf].
    split; [exact He|].
    replace (Z.pos p~1) with (Z.pos p + Z.pos p + 1) by lia.
    rewrite !Z.pow_add_r by lia.
    pose proof (Z.pow_pos_nonneg 2 (Z.pos p) ltac:(lia) ltac:(lia)).
    nia.
  - destruct (IH _ H) as [Hc Hd]. destruct (IH _ Hc) as [He Hf].
    split; [exact He|].
    replace (Z.pos p~0) with (Z.pos p + Z.pos p) by lia.
    rewrite !Z.pow_add_r by lia.
    pose proof (Z.pow_pos_nonneg 2 (Z.pos p) ltac:(lia) ltac:(lia)).
    nia.
  - now apply H1.
Qed.

Section InRange.
Variables prec emax : Z.
Hypothesis prec_emax : 0 < prec < emax.

Let emin := SpecFloat.emin prec emax.

Lemma fexp_le (x : Z) : x <= emax -> fexp prec emax x <= emax - prec.
Proof. unfold fexp, SpecFloat.emin. lia. Qed.

(** After the shift to the canonical exponent, the mantissa is
    non-negative and both the exponent and the magnitude stay within
    range. *)
Lemma shr_fexp_in_range (m e : Z) (l : location) :
  0 <= m -> e <= emax - prec -> Zdigits2 m + e <= emax ->
  let '(mrs, e') := shr_fexp prec emax m e l in
  0 <= shr_m mrs /\ e' <= emax - prec /\
  Zdigits2 (shr_m mrs) + e' <= Z.max (Zdigits2 m + e) (emax - prec).
Proof.
  intros Hm He Hd. unfold shr_fexp.
  assert (Hrec : shr_m (shr_record_of_loc m l) = m)
    by (destruct l as [|[]]; reflexivity).
  pose proof (fexp_le (Zdigits2 m + e) Hd) as Hf.
  destruct (fexp prec emax (Zdigits2 m + e) - e) as [|p|p] eqn:En; simpl;
    rewrite ?Hrec; try lia.
  destruct (iter_shr_1_upper p (shr_record_of_loc m l)) as [H0 Hup];
    [now rewrite Hrec|].
  rewrite Hrec in Hup.
  set (m1 := shr_m (iter_pos shr_1 p (shr_record_of_loc m l))) in *.
  split; [exact H0 | split; [lia|]].
  pose proof (Zdigits2_upper m Hm) as Hu.
  pose proof (Zdigits2_nonneg m) as Hn.
  destruct (Z.le_gt_cases (Z.pos p) (Zdigits2 m)) as [Hle|Hgt].
  - assert (Zdigits2 m1 <= Zdigits2 m - Z.pos p); [|lia].
    apply Zdigits2_le; [lia|]. split; [exact H0|].
    apply (Z.mul_lt_mono_pos_l (2 ^ Z.pos p)); [apply Z.pow_pos_nonneg; lia|].
    rewrite <- Z.pow_add_r by lia.
    replace (Z.pos p + (Zdigits2 m - Z.pos p)) with (Zdigits2 m) by lia.
    lia.
  - assert (m1 = 0); [|subst m1; replace (shr_m _) with 0; simpl; lia].
    assert (2 ^ Zdigits2 m < 2 ^ Z.pos p) by (apply Z.pow_lt_mono_r; lia).
    assert (0 < 2 ^ Z.pos p) by (apply Z.pow_pos_nonneg; lia).
    nia.
Qed.

Lemma round_nearest_even_digits (m : Z) (l : location) :
  0 <= m ->
  0 <= round_nearest_even m l /\
  Zdigits2 (round_nearest_even m l) <= Zdigits2 m + 1.
Proof.
  intros Hm. pose proof (round_nearest_even_nonneg m l Hm) as H0.
  split; [exact H0|].
  pose proof (Zdigits2_upper m Hm) as Hu.
  pose proof (Zdigits2_nonneg m) as Hn.
  apply Zdigits2_le; [lia|]. split; [exact H0|].
  rewrite Z.pow_add_r by lia. change (2 ^ 1) with 2.
  assert (round_nearest_even m l <= m + 1); [|lia].
  destruct l as [|[]]; simpl; try lia. destruct (Z.even m); lia.
Qed.

(** A value whose magnitude is one binade below the top rounds to a
    finite float. *)
Lemma binary_round_aux_in_range (sx : bool) (m e : Z) (l : location) :
  0 <= m -> e <= emax - prec -> Zdigits2 m + e <= emax - 1 ->
  forall s, binary_round_aux prec emax sx m e l <> S754_infinity s.
Proof.
  intros Hm He Hd s. unfold binary_round_aux.
  pose proof (shr_fexp_in_range m e l Hm He ltac:(lia)) as H1.
  destruct (shr_fexp prec emax m e l) as [mrs' e'].
  destruct H1 as (H0 & He' & Hd').
  destruct (round_nearest_even_digits (shr_m mrs') (loc_of_shr_record mrs') H0)
    as [Hr0 Hrd].
  set (m2 := round_nearest_even (shr_m mrs') (loc_of_shr_record mrs')) in *.
  pose proof (shr_fexp_in_range m2 e' loc_Exact Hr0 He' ltac:(lia)) as H2.
  destruct (shr_fexp prec emax m2 e' loc_Exact) as [mrs'' e''].
  destruct H2 as (_ & He'' & _).
  destruct (shr_m mrs''); try discriminate.
  apply Z.leb_le in He''. rewrite He''. discriminate.
Qed.

Lemma digits2_pos_iter_xO (m d : positive) :
  Z.pos (digits2_pos (Pos.iter xO m d)) = Z.pos (digits2_pos m) + Z.pos d.
Proof.
  induction d as [|d IH] using Pos.peano_ind.
  - simpl. lia.
  - rewrite Pos.iter_succ. simpl digits2_pos. lia.
Qed.

Lemma binary_round_in_range (sx : bool) (m : positive) (e : Z) :
  e <= emax - prec -> Z.pos (digits2_pos m) + e <= emax - 1 ->
  forall s, binary_round prec emax sx m e <> S754_infinity s.
Proof.
  intros He Hd. unfold binary_round, shl_align.
  destruct (fexp prec emax (Z.pos (digits2_pos m) + e) - e) as [|p|p] eqn:E;
    apply binary_round_aux_in_range; simpl Zdigits2; try lia.
  rewrite digits2_pos_iter_xO. lia.
Qed.

(** The quotient of two integers, the dividend at least one binade
    below the top, is finite. *)
Lemma SFdiv_int_in_range (sx sy : bool) (mx my : positive) :
  Z.pos (digits2_pos mx) <= emax - 1 ->
  forall s,
    SFdiv prec emax (S754_finite sx mx 0) (S754_finite sy my 0)
    <> S754_infinity s.
Proof.
  intros Hd s. unfold SFdiv, SFdiv_core_binary. simpl Zdigits2.
  set (d1 := Z.pos (digits2_pos mx)) in *.
  set (d2 := Z.pos (digits2_pos my)).
  set (e' := Z.min (fexp prec emax (d1 + 0 - (d2 + 0))) (0 - 0)).
  assert (He' : e' <= 0) by (subst e'; lia).
  set (m' := match 0 - 0 - e' with
             | 0 => Z.pos mx
             | Z.pos _ => Z.shiftl (Z.pos mx) (0 - 0 - e')
             | Z.neg _ => 0
             end).
  assert (Hm' : 0 <= m' < 2 ^ (d1 - e')).
  { pose proof (digits2_pos_upper mx) as Hu. fold d1 in Hu. subst m'.
    destruct (0 - 0 - e') as [|p|p] eqn:Es; try lia.
    - replace (d1 - e') with d1 by lia. lia.
    - rewrite Z.shiftl_mul_pow2 by lia.
      replace (d1 - e') with (d1 + Z.pos p) by lia.
      rewrite Z.pow_add_r by lia.
      assert (0 < 2 ^ Z.pos p) by (apply Z.pow_pos_nonneg; lia). nia. }
  assert (Hq : 0 <= m' / Z.pos my <= m').
  { split; [apply Z.div_pos; lia|].
    apply Z.div_le_upper_bound; [lia|]. nia. }
  change (m' / Z.pos my) with (fst (Z.div_eucl m' (Z.pos my))) in Hq.
  destruct (Z.div_eucl m' (Z.pos my)) as [q r]. simpl in Hq.
  apply binary_round_aux_in_range; try lia.
  assert (Zdigits2 q <= d1 - e'); [|lia].
  apply Zdigits2_le; [subst d1; lia | lia].
Qed.

End InRange.

Lemma prec_emax_ok : 0 < prec < emax.
Proof. split; reflexivity. Qed.

(** A bound on magnitudes that keeps every intermediate result of line
    136 well inside the binary64 range. *)
Definition premium_limit : Z := 2 ^ 1000.

Lemma premium_limit_pos : 2 < premium_limit.
Proof. reflexivity. Qed.

Lemma pos_digits_bound (p : positive) (k : Z) :
  0 <= k -> Z.pos p < 2 ^ k -> Z.pos (digits2_pos p) <= k.
Proof.
  intros Hk H. apply (Zdigits2_le (Z.pos p) k Hk). lia.
Qed.

Lemma binary_round_small (sx : bool) (p : positive) :
  Z.pos p < premium_limit ->
  forall s, binary_round prec emax sx p 0 <> S754_infinity s.
Proof.
  intros Hp. apply (binary_round_in_range prec emax prec_emax_ok).
  - discriminate.
  - assert (Hd : Z.pos (digits2_pos p) <= 1000)
      by (apply pos_digits_bound; [discriminate | exact Hp]).
    change (emax - 1) with 1023. lia.
Qed.

Lemma float_of_int_in_range (z : Z) :
  Z.abs z < premium_limit -> exists g, float_of_int z = Ok g.
Proof.
  intros Hz. unfold float_of_int, binary_normalize.
  destruct z as [|p|p].
  - eexists. reflexivity.
  - pose proof (binary_round_small false p Hz) as H.
    destruct (binary_round prec emax false p 0) as [s|s| |s m e];
      try (eexists; reflexivity). now destruct (H s).
  - pose proof (binary_round_small true p Hz) as H.
    destruct (binary_round prec emax true p 0) as [s|s| |s m e];
      try (eexists; reflexivity). now destruct (H s).
Qed.

Lemma int_truediv_in_range (a b : Z) :
  Z.abs a < 2 * premium_limit -> int_truediv a b <> Raise OverflowError.
Proof.
  intros Ha. unfold int_truediv.
  destruct (b =? 0); [discriminate|].
  destruct (Z.eqb_spec a 0) as [|Hne]; [discriminate|].
  pose proof (SFdiv_int_in_range prec emax prec_emax_ok (a <? 0) (b <? 0)
                (Z.to_pos (Z.abs a)) (Z.to_pos (Z.abs b))) as H.
  assert (Hd : Z.pos (digits2_pos (Z.to_pos (Z.abs a))) <= 1001).
  { apply pos_digits_bound; [discriminate|]. rewrite Z2Pos.id by lia.
    replace (2 ^ 1001) with (2 * premium_limit); [exact Ha|].
    unfold premium_limit. now rewrite <- Z.pow_succ_r. }
  assert (Hd' : Z.pos (digits2_pos (Z.to_pos (Z.abs a))) <= emax - 1)
    by (change (emax - 1) with 1023; lia).
  specialize (H Hd').
  destruct (SFdiv prec emax _ _) as [s|s| |s m e]; try discriminate.
  now destruct (H s).
Qed.

(** Within these bounds line 136 does not overflow. *)
Lemma premium_diff_percent_in_range (reference : value) (band : Z) :
  Z.abs band < premium_limit ->
  (forall x, as_number reference = Some (NInt x) ->
     Z.abs x < premium_limit) ->
  premium_diff_percent reference band <> Raise OverflowError.
Proof.
  intros Hb Hx. unfold premium_diff_percent, sub. cbn [as_number].
  destruct (as_number reference) as [[x|f]|]; [| |discriminate].
  - cbn [bind abs truediv as_number]. apply int_truediv_in_range.
    specialize (Hx x eq_refl). rewrite Z.abs_idemp. lia.
  - destruct (float_of_int_in_range band Hb) as [g Eg]. rewrite Eg.
    cbn [bind abs truediv as_number]. rewrite Eg. cbn [bind].
    unfold float_truediv. destruct (is_zero g); discriminate.
Qed.

Lemma get_source {V} (d : dict V) (k : string) (default : V) :
  get d k default = default \/ exists k', In (k', get d k default) d.
Proof.
  induction d as [|[k' v] d IH]; simpl; [now left|].
  destruct (String.eqb k' k).
  - right. exists k'. now left.
  - destruct IH as [->|[k'' H]]; [now left|]. right. exists k''. now right.
Qed.

(** A reference premium is a value of the policy's mapping or the
    default [float('inf')]. *)
Lemma reference_premium_source (p : Policy) (reference : value) :
  reference_premium p = Ok reference ->
  reference = PyFloat inf \/ exists k, In (k, reference) (premium_yearly p).
Proof.
  unfold reference_premium. destruct (no_sum_insured (sum_insured p)).
  - destruct (premium_yearly p) as [|[k v] d]; simpl; [discriminate|].
    intros [= <-]. right. exists k. now left.
  - destruct (min (sum_insured p)) as [m|e]; cbn [bind]; [|discriminate].
    intros [= <-]. apply get_source.
Qed.

(** A policy with at least one premium, whose integer premiums are
    below [2^1000] in magnitude. *)
Definition well_priced (p : Policy) : Prop :=
  premium_yearly p <> [] /\
  forall k x, In (k, PyInt x) (premium_yearly p) -> Z.abs x < premium_limit.

(** X16: with a non-zero preferred premium below [2^1000] in magnitude
    and a catalogue in which every policy is priced, its integer
    premiums below [2^1000] in magnitude, a quote request never fails:
    premiums that are not numbers are passed over and nothing else can
    raise. *)
Theorem X16_request_succeeds (policies_data : list Policy)
    (profile : UserProfile) :
  preferred_premium_band profile <> 0 ->
  Z.abs (preferred_premium_band profile) < premium_limit ->
  Forall well_priced policies_data ->
  exists r, get_quote policies_data profile = Ok r.
Proof.
  intros Hb0 Hb Hwp. apply get_quote_returns.
  apply Forall_forall. intros p Hp e He.
  unfold eligible_policies in Hp. apply filter_In in Hp as [Hp _].
  rewrite Forall_forall in Hwp. destruct (Hwp p Hp) as [Hne Hbound].
  destruct (score_policy_raises _ _ _ He) as [Hr|(ref & Hr & Hd)].
  - apply reference_premium_raises in Hr as (_ & _ & Hempty). congruence.
  - destruct (premium_diff_percent_raises _ _ _ Hd)
      as [[-> _]|[(_ & Hz & _)|(-> & _ & _)]];
      [reflexivity | congruence |].
    exfalso. revert Hd. apply premium_diff_percent_in_range; [exact Hb|].
    intros x Hx.
    destruct (reference_premium_source _ _ Hr) as [->|[k Hin]];
      [discriminate Hx|].
    destruct ref as [|b|z|f|s]; cbn [as_number] in Hx;
      try discriminate Hx; injection Hx as <-.
    + pose proof premium_limit_pos. destruct b; cbn; lia.
    + exact (Hbound k z Hin).
Qed.

Lemma X16_request_succeeds_witness :
  exists r, get_quote (P_strpremium :: catalogue_4) profile_negative = Ok r.
Proof.
  apply X16_request_succeeds.
  - discriminate.
  - reflexivity.
  - repeat constructor; try discriminate;
      cbn [premium_yearly mk_policy P_strpremium P_motor P_health1
           P_health2 P_life]; intros k x H;
      repeat (destruct H as [H|H];
              [try discriminate H; injection H as _ <-; reflexivity|]);
      contradiction.
Defined.

(** * The proximity thresholds in exact arithmetic (C2) *)

(** ** The quotient of two integers is the nearest binary64 *)














(** Beyond [2^53] the float comparison and the exact one can part: here
    [a / b] is below 1/5, yet it rounds to the literal [0.2] itself. *)
Lemma thresholds_beyond_range :
  let a := 2 ^ 60 in
  let b := 5 * 2 ^ 60 + 1 in
  5 * a < b /\
  exists x, int_truediv a b = Ok x /\ float_lt x lit_0_2 = false.
Proof.
  split; [reflexivity|]. eexists. split; [vm_compute; reflexivity|].
  reflexivity.
Qed.

(** ** Scoring (C2) *)




(** * The catalogue as a shared object (C9) *)

(** [get_quote] once more, this time as the interpreter runs it: the
    catalogue and the lists the function builds are objects in one
    store, a policy is passed around by reference, [append] updates a
    list in place, and a [for] loop reads its list again at every
    step. *)
Module Heap.

Definition addr : Type := nat.

(** The objects [get_quote] can reach: the policy dicts, the lists of
    references to them, the lists of [{"policy": ..., "score": ...}]
    entries, and the next free address. *)
Record heap : Type := {
  policy_at : addr -> Policy;
  refs_at : addr -> list addr;
  entries_at : addr -> list (addr * Z);
  next : addr
}.

Definition upd {A} (f : addr -> A) (a : addr) (v : A) : addr -> A :=
  fun x => if Nat.eqb x a then v else f x.

(** A new list object holding [xs]; [[]] is [new_refs []]. *)
Definition new_refs (xs : list addr) (h : heap) : addr * heap :=
  (next h,
   {| policy_at := policy_at h;
      refs_at := upd (refs_at h) (next h) xs;
      entries_at := entries_at h;
      next := S (next h) |}).

Definition new_entries (xs : list (addr * Z)) (h : heap) : addr * heap :=
  (next h,
   {| policy_at := policy_at h;
      refs_at := refs_at h;
      entries_at := upd (entries_at h) (next h) xs;
      next := S (next h) |}).

(** [l.append(x)] *)
Definition append_ref (l : addr) (x : addr) (h : heap) : heap :=
  {| policy_at := policy_at h;
     refs_at := upd (refs_at h) l (refs_at h l ++ [x]);
     entries_at := entries_at h;
     next := next h |}.

Definition append_entry (l : addr) (x : addr * Z) (h : heap) : heap :=
  {| policy_at := policy_at h;
     refs_at := refs_at h;
     entries_at := upd (entries_at h) l (entries_at h l ++ [x]);
     next := next h |}.

(** [for x in l: body], from index [i] on. The list is looked up in the
    current store at each step, as the list iterator does; [None] is a
    loop that has not ended within [fuel] steps. *)
Fixpoint for_each (fuel : nat) (l : addr) (i : nat)
    (body : addr -> heap -> result unit * heap) (h : heap)
    : option (result unit * heap) :=
  match fuel with
  | O => None
  | S fuel' =>
      match nth_error (refs_at h l) i with
      | None => Some (Ok tt, h)
      | Some x =>
          match body x h with
          | (Ok _, h') => for_each fuel' l (S i) body h'
          | (Raise e, h') => Some (Raise e, h')
          end
      end
  end.

(** [sorted(..., key=lambda x: x["score"], reverse=True)] on entries. *)
Fixpoint insert_entry (x : addr * Z) (xs : list (addr * Z))
    : list (addr * Z) :=
  match xs with
  | [] => [x]
  | y :: xs' =>
      if snd y <=? snd x then x :: y :: xs'
      else y :: insert_entry x xs'
  end.

Definition sort_entries (xs : list (addr * Z)) : list (addr * Z) :=
  fold_right insert_entry [] xs.

(** Lines 111-160; [policies_data] is the address of the global list,
    the result the address of [top_3_policies]. *)
Definition get_quote (fuel : nat) (policies_data : addr)
    (profile : UserProfile) (h : heap) : option (result addr * heap) :=
  let (eligible_policies, h) := new_refs [] h in
  match
    for_each fuel policies_data 0
      (fun policy h =>
         if eligible profile (policy_at h policy)
         then (Ok tt, append_ref eligible_policies policy h)
         else (Ok tt, h)) h
  with
  | None => None
  | Some (Raise e, h) => Some (Raise e, h)
  | Some (Ok _, h) =>
      let (scored_policies, h) := new_entries [] h in
      match
        for_each fuel eligible_policies 0
          (fun policy h =>
             match score_policy profile (policy_at h policy) with
             | Ok score =>
                 (Ok tt, append_entry scored_policies (policy, score) h)
             | Raise e =>
                 if handled e then (Ok tt, h) else (Raise e, h)
             end) h
      with
      | None => None
      | Some (Raise e, h) => Some (Raise e, h)
      | Some (Ok _, h) =>
          let (sorted_policies, h) :=
            new_entries (sort_entries (entries_at h scored_policies)) h in
          let (top_3_policies, h) :=
            new_refs (map fst (firstn 3 (entries_at h sorted_policies))) h in
          Some (Ok top_3_policies, h)
      end
  end.

(** The catalogue a list object stands for, and the response a result
    stands for, policies read through their references. *)
Definition catalogue (h : heap) (l : addr) : list Policy :=
  map (policy_at h) (refs_at h l).

Definition response (h : heap) (r : result addr) : result QuoteResponse :=
  match r with
  | Ok l => Ok {| recommendations := catalogue h l |}
  | Raise e => Raise e
  end.

Definition entry (h : heap) (x : addr * Z) : Scored :=
  {| policy := policy_at h (fst x); score := snd x |}.

End Heap.

Section HeapFacts.
Import Heap.

Lemma upd_eq {A} (f : addr -> A) (a : addr) (v : A) : upd f a v a = v.
Proof. unfold upd. now rewrite Nat.eqb_refl. Qed.

Lemma upd_neq {A} (f : addr -> A) (a x : addr) (v : A) :
  x <> a -> upd f a v x = f x.
Proof.
  intros H. unfold upd. destruct (Nat.eqb_spec x a); [contradiction|].
  reflexivity.
Qed.

Lemma skipn_nth_error {A} (l : list A) (i : nat) :
  match nth_error l i with
  | Some x => skipn i l = x :: skipn (S i) l
  | None => skipn i l = []
  end.
Proof.
  revert i. induction l as [|y l IH]; intros [|i]; simpl; trivial.
  apply IH.
Qed.

Lemma sort_entries_entry (h : heap) (xs : list (addr * Z)) :
  map (entry h) (sort_entries xs) = sorted_by_score_desc (map (entry h) xs).
Proof.
  induction xs as [|x xs IH]; simpl; [reflexivity|].
  rewrite <- IH. clear IH.
  induction (sort_entries xs) as [|y ys IH]; simpl; [reflexivity|].
  destruct (snd y <=? snd x); simpl; [reflexivity|]. now rewrite IH.
Qed.

Variable profile : UserProfile.

(** The body of the first loop, appending to the list at [e]. *)
Definition filter_body (e : addr) (policy : addr) (h : heap)
    : result unit * heap :=
  if eligible profile (policy_at h policy)
  then (Ok tt, append_ref e policy h)
  else (Ok tt, h).

(** The first loop ends, and all it changes is the list at [e], which
    is not the list it runs over. *)
Lemma filter_loop (g e : addr) :
  e <> g ->
  forall (fuel i : nat) (h : heap),
    (List.length (refs_at h g) - i < fuel)%nat ->
    exists h',
      for_each fuel g i (filter_body e) h = Some (Ok tt, h') /\
      policy_at h' = policy_at h /\
      entries_at h' = entries_at h /\
      next h' = next h /\
      refs_at h' e =
        refs_at h e
        ++ filter (fun a => eligible profile (policy_at h a))
             (skipn i (refs_at h g)) /\
      forall a, a <> e -> refs_at h' a = refs_at h a.
Proof.
  intros Hne. induction fuel as [|fuel IH]; intros i h Hf; [lia|].
  simpl. pose proof (skipn_nth_error (refs_at h g) i) as Hs.
  destruct (nth_error (refs_at h g) i) as [x|] eqn:En.
  - assert (Hi : (i < List.length (refs_at h g))%nat)
      by (apply nth_error_Some; congruence).
    unfold filter_body at 1. rewrite Hs. simpl filter.
    destruct (eligible profile (policy_at h x)).
    + destruct (IH (S i) (append_ref e x h)) as (h' & Hrun & Hp & He & Hn & Hr & Ho).
      { simpl. rewrite upd_neq by congruence. lia. }
      exists h'. split; [exact Hrun|]. simpl in *.
      rewrite upd_eq in Hr. rewrite (upd_neq _ e g) in Hr by congruence.
      repeat split; trivial.
      * rewrite Hr, <- app_assoc. reflexivity.
      * intros a Ha. rewrite (Ho a Ha). now apply upd_neq.
    + destruct (IH (S i) h) as (h' & Hrun & Hp & He & Hn & Hr & Ho); [lia|].
      exists h'. repeat split; trivial.
  - exists h. rewrite Hs. simpl. rewrite app_nil_r. repeat split; trivial.
Qed.

(** The body of the second loop, appending to the list at [s]. *)
Definition score_body (s : addr) (policy : addr) (h : heap)
    : result unit * heap :=
  match score_policy profile (policy_at h policy) with
  | Ok score => (Ok tt, append_entry s (policy, score) h)
  | Raise e => if handled e then (Ok tt, h) else (Raise e, h)
  end.

(** The second loop ends or raises as [score_loop] does, and all it
    changes is the list of entries at [s]. *)
Lemma score_loop_refines (e s : addr) :
  forall (fuel i : nat) (h : heap),
    (List.length (refs_at h e) - i < fuel)%nat ->
    exists r h',
      for_each fuel e i (score_body s) h = Some (r, h') /\
      policy_at h' = policy_at h /\
      refs_at h' = refs_at h /\
      next h' = next h /\
      (forall a, a <> s -> entries_at h' a = entries_at h a) /\
      match score_loop profile
              (map (policy_at h) (skipn i (refs_at h e)))
              (map (entry h) (entries_at h s)) with
      | Ok scored => r = Ok tt /\ map (entry h) (entries_at h' s) = scored
      | Raise err => r = Raise err
      end.
Proof.
  induction fuel as [|fuel IH]; intros i h Hf; [lia|].
  simpl. pose proof (skipn_nth_error (refs_at h e) i) as Hs.
  destruct (nth_error (refs_at h e) i) as [x|] eqn:En.
  - assert (Hi : (i < List.length (refs_at h e))%nat)
      by (apply nth_error_Some; congruence).
    rewrite Hs. simpl map. simpl score_loop. unfold score_body at 1.
    destruct (score_policy profile (policy_at h x)) as [sc|err].
    + destruct (IH (S i) (append_entry s (x, sc) h))
        as (r & h' & Hrun & Hp & Hr & Hn & Ho & Hres); [simpl; lia|].
      exists r, h'. split; [exact Hrun|]. simpl in *.
      rewrite upd_eq, map_app in Hres.
      repeat split; trivial.
      intros a Ha. rewrite (Ho a Ha). now apply upd_neq.
    + destruct (handled err).
      * destruct (IH (S i) h)
          as (r & h' & Hrun & Hp & Hr & Hn & Ho & Hres); [lia|].
        exists r, h'. repeat split; trivial.
      * exists (Raise err), h. repeat split; trivial.
  - exists (Ok tt), h. rewrite Hs. simpl. repeat split; trivial.
Qed.

End HeapFacts.

Lemma map_filter_comm {A B} (f : A -> B) (p : B -> bool) (l : list A) :
  map f (filter (fun a => p (f a)) l) = filter p (map f l).
Proof.
  induction l as [|x l IH]; simpl; [reflexivity|].
  destruct (p (f x)); simpl; now rewrite IH.
Qed.

(** The run on the store ends for any fuel above the length of the
    catalogue, leaves every object that existed before the call as it
    was, and answers what [get_quote] computes from the catalogue. *)
Lemma get_quote_refines (h : Heap.heap) (policies_data : Heap.addr)
    (profile : UserProfile) (fuel : nat) :
  (policies_data < Heap.next h)%nat ->
  (List.length (Heap.refs_at h policies_data) < fuel)%nat ->
  exists r h',
    Heap.get_quote fuel policies_data profile h = Some (r, h') /\
    Heap.policy_at h' = Heap.policy_at h /\
    (forall a, (a < Heap.next h)%nat ->
       Heap.refs_at h' a = Heap.refs_at h a /\
       Heap.entries_at h' a = Heap.entries_at h a) /\
    (Heap.next h <= Heap.next h')%nat /\
    Heap.response h' r = get_quote (Heap.catalogue h policies_data) profile.
Proof.
  intros Hg Hfuel. unfold Heap.get_quote. cbn [Heap.new_refs].
  set (e := Heap.next h).
  set (h0 := {| Heap.policy_at := Heap.policy_at h;
                Heap.refs_at := Heap.upd (Heap.refs_at h) e [];
                Heap.entries_at := Heap.entries_at h;
                Heap.next := S e |}).
  assert (Hne : e <> policies_data) by (subst e; lia).
  assert (Hg0 : Heap.refs_at h0 policies_data = Heap.refs_at h policies_data)
    by (simpl; apply upd_neq; congruence).
  destruct (filter_loop profile policies_data e Hne fuel 0 h0)
    as (h1 & Hrun1 & Hp1 & He1 & Hn1 & Hr1 & Ho1);
    [rewrite Hg0; lia|].
  unfold filter_body in Hrun1. rewrite Hrun1. clear Hrun1.
  cbn [Heap.new_entries].
  set (s := Heap.next h1).
  set (h2 := {| Heap.policy_at := Heap.policy_at h1;
                Heap.refs_at := Heap.refs_at h1;
                Heap.entries_at := Heap.upd (Heap.entries_at h1) s [];
                Heap.next := S s |}).
  assert (He2 : Heap.refs_at h2 e =
                filter (fun a => eligible profile (Heap.policy_at h a))
                  (Heap.refs_at h policies_data)).
  { simpl. rewrite Hr1, Hg0. simpl. now rewrite upd_eq. }
  destruct (score_loop_refines profile e s fuel 0 h2)
    as (r & h3 & Hrun2 & Hp3 & Hr3 & Hn3 & Ho3 & Hres).
  { rewrite He2.
    pose proof (filter_length_le
                  (fun a => eligible profile (Heap.policy_at h a))
                  (Heap.refs_at h policies_data)). lia. }
  unfold score_body in Hrun2. rewrite Hrun2. clear Hrun2.
  assert (Hcat : map (Heap.policy_at h2) (skipn 0 (Heap.refs_at h2 e)) =
                 eligible_policies (Heap.catalogue h policies_data) profile).
  { cbn [skipn]. rewrite He2. simpl Heap.policy_at. rewrite Hp1. simpl.
    unfold eligible_policies, Heap.catalogue. apply map_filter_comm. }
  rewrite Hcat in Hres.
  assert (Hs2 : Heap.entries_at h2 s = []) by (simpl; apply upd_eq).
  rewrite Hs2 in Hres. simpl map in Hres.
  assert (Hpol : Heap.policy_at h3 = Heap.policy_at h)
    by (rewrite Hp3; simpl; rewrite Hp1; reflexivity).
  assert (Hframe3 : forall a, (a < e)%nat ->
            Heap.refs_at h3 a = Heap.refs_at h a /\
            Heap.entries_at h3 a = Heap.entries_at h a).
  { intros a Ha. split.
    - rewrite Hr3. simpl. rewrite Ho1 by lia. simpl. apply upd_neq. lia.
    - rewrite Ho3 by (subst s; rewrite Hn1; simpl; lia).
      simpl. rewrite upd_neq by (subst s; rewrite Hn1; simpl; lia).
      now rewrite He1. }
  assert (Hnext3 : Heap.next h3 = S (S e))
    by (rewrite Hn3; simpl; subst s; now rewrite Hn1).
  unfold get_quote.
  destruct (score_loop profile
              (eligible_policies (Heap.catalogue h policies_data) profile) [])
    as [scored|err].
  - destruct Hres as [-> Hscored].
    cbn [Heap.new_entries Heap.new_refs Heap.entries_at Heap.next].
    rewrite upd_eq.
    eexists _, _. split; [reflexivity|].
    cbn [Heap.policy_at Heap.refs_at Heap.entries_at Heap.next].
    split; [exact Hpol|]. split; [|split; [lia|]].
    + intros a Ha. destruct (Hframe3 a Ha) as [H1 H2]. split.
      * rewrite upd_neq by lia. exact H1.
      * rewrite upd_neq by lia. exact H2.
    + unfold Heap.response, Heap.catalogue. cbn [bind].
      cbn [Heap.policy_at Heap.refs_at]. rewrite upd_eq. do 2 f_equal.
      rewrite <- Hscored, <- sort_entries_entry, firstn_map, !map_map.
      apply map_ext. intros x. simpl. now rewrite Hpol, Hp1.
  - subst r. exists (Raise err), h3. split; [reflexivity|].
    split; [exact Hpol|]. split; [exact Hframe3|]. split; [lia|].
    reflexivity.
Qed.

(** C9: a quote is a function of the catalogue and the profile, and
    computing it has no side effect. Run on a store in which the
    catalogue is an allocated list object, with fuel above its length,
    [get_quote] ends; every policy object and every list that existed
    before the call is as it was, the catalogue among them; the response
    is the one computed from the catalogue and the profile alone; and
    the same call in the store the first call left behind gives the same
    response. *)
Theorem C9_quote_is_pure (h : Heap.heap) (policies_data : Heap.addr)
    (profile : UserProfile) (fuel : nat) :
  (policies_data < Heap.next h)%nat ->
  (List.length (Heap.refs_at h policies_data) < fuel)%nat ->
  exists r h',
    Heap.get_quote fuel policies_data profile h = Some (r, h') /\
    Heap.policy_at h' = Heap.policy_at h /\
    (forall a, (a < Heap.next h)%nat ->
       Heap.refs_at h' a = Heap.refs_at h a /\
       Heap.entries_at h' a = Heap.entries_at h a) /\
    Heap.catalogue h' policies_data = Heap.catalogue h policies_data /\
    Heap.response h' r = get_quote (Heap.catalogue h policies_data) profile /\
    exists r2 h'',
      Heap.get_quote fuel policies_data profile h' = Some (r2, h'') /\
      Heap.response h'' r2 = Heap.response h' r /\
      Heap.catalogue h'' policies_data = Heap.catalogue h policies_data.
Proof.
  intros Hg Hfuel.
  destruct (get_quote_refines h policies_data profile fuel Hg Hfuel)
    as (r & h' & Hrun & Hp & Hframe & Hn & Hresp).
  destruct (Hframe policies_data Hg) as [Hrefs _].
  assert (Hcat : Heap.catalogue h' policies_data =
                 Heap.catalogue h policies_data)
    by (unfold Heap.catalogue; now rewrite Hp, Hrefs).
  exists r, h'. repeat (split; [assumption|]).
  destruct (get_quote_refines h' policies_data profile fuel)
    as (r2 & h'' & Hrun2 & Hp2 & Hframe2 & Hn2 & Hresp2);
    [lia | now rewrite Hrefs |].
  exists r2, h''. split; [exact Hrun2|]. split.
  - now rewrite Hresp2, Hcat, Hresp.
  - destruct (Hframe2 policies_data ltac:(lia)) as [Hrefs2 _].
    unfold Heap.catalogue in *. now rewrite Hp2, Hrefs2.
Qed.

(** A store that holds the four policies of [catalogue_4] at addresses
    0 to 3 and the catalogue list at address 0 of the lists. *)
Definition heap_4 : Heap.heap :=
  {| Heap.policy_at := fun a => nth a catalogue_4 P1;
     Heap.refs_at := fun a => if Nat.eqb a 0 then [0; 1; 2; 3]%nat else [];
     Heap.entries_at := fun _ => [];
     Heap.next := 1%nat |}.

Lemma C9_quote_is_pure_witness :
  exists r h',
    Heap.get_quote 5 0%nat profile_A heap_4 = Some (r, h') /\
    Heap.catalogue h' 0%nat = catalogue_4 /\
    Heap.response h' r =
      Ok {| recommendations := [P_health1; P_health2; P_motor] |}.
Proof.
  destruct (C9_quote_is_pure heap_4 0%nat profile_A 5)
    as (r & h' & Hrun & _ & _ & Hcat & Hresp & _).
  - apply Nat.lt_0_1.
  - repeat constructor.
  - exists r, h'. split; [exact Hrun|]. split; [exact Hcat | exact Hresp].
Defined.

(** The first hypothesis is needed: a catalogue at an address that is
    still free is overwritten by the first list the function creates,
    and the quote is lost with it. *)
Lemma unallocated_catalogue_is_overwritten :
  let h := {| Heap.policy_at := fun _ => P1;
              Heap.refs_at := fun _ => [0%nat];
              Heap.entries_at := fun _ => [];
              Heap.next := 0%nat |} in
  get_quote (Heap.catalogue h 0%nat) profile_A
    = Ok {| recommendations := [P1] |} /\
  match Heap.get_quote 5 0%nat profile_A h with
  | Some (r, h') =>
      Heap.response h' r = Ok {| recommendations := [] |} /\
      Heap.catalogue h' 0%nat = []
  | None => False
  end.
Proof. split; [reflexivity|]. vm_compute. split; reflexivity. Qed.
